(** * nexus-input-transformation: the schema-tree reducer and the transform compiler

    A shallow embedding of [src/unnamed/part_003] (the module imported as
    [./input-type-traversal]) and of [src/input-transformer.ts].

    Conventions of the embedding.
    - A JavaScript object used as a record is an association list of its
      own properties, in property order; the special ordering of
      integer-like keys is not modelled: GraphQL names cannot be
      integer-like.
    - An argument bag and the [extensions] object of an argument definition
      are plain objects: a read that finds no own property goes on to
      [Object.prototype], whose members are the built-ins [VBuiltin].  The
      [extensions] of a type and of a field of an input object type are the
      maps without a prototype that graphql-js makes of them.  Every other
      value inherits the names of [Object.prototype] as well; what arrays,
      strings, numbers, booleans and built-ins have besides on their own
      prototypes ([map], [name], [call] and the like) is not modelled, and
      built-ins are not told apart beyond the name they were found under.
    - A schema tree is a finite tree: an input object type that refers to
      itself, on which the traversal would not end, is outside the model.
      Every definition has a type, and its [extensions] are absent or a
      record.
    - A value of a TypeScript type [T] that may be [undefined] is an
      [option]: [None] is [undefined].
    - A call that may throw returns a [Result].  The caller's transforms are
      functions of their arguments: they hold no state and mutate nothing. *)

From Stdlib Require Import List String Ascii ZArith Bool Lia DecimalString Permutation.
Import ListNotations.
Open Scope string_scope.
Open Scope list_scope.

Set Implicit Arguments.
Set Warnings "-register-all".

(** ** Runtime values *)

(** The values the request runtime puts in an argument bag, and the
    built-ins a read can reach up a prototype chain: on a plain object,
    [VBuiltin m] is [Object.prototype[m]], a built-in function (for
    [__proto__], [Object.prototype] itself). *)
Inductive Value : Type :=
| VUndefined
| VNull
| VBool (b : bool)
| VNum (n : Z)
| VStr (s : string)
| VArr (items : list Value)
| VObj (props : list (string * Value))
| VBuiltin (member : string).

(** A record [Record<string, V>]: own enumerable properties, in order. *)
Definition Rec (V : Type) : Type := list (string * V).

Module Obj.

(** [o[key]] on own properties: the first binding of [key], if any. *)
Fixpoint get {V : Type} (key : string) (o : Rec V) : option V :=
  match o with
  | [] => None
  | (k, v) :: rest => if String.eqb k key then Some v else get key rest
  end.

(** [o[key] = v] as a pure update: an existing property keeps its place, a
    new one is added last. *)
Fixpoint set {V : Type} (key : string) (v : V) (o : Rec V) : Rec V :=
  match o with
  | [] => [(key, v)]
  | (k, w) :: rest =>
      if String.eqb k key then (k, v) :: rest else (k, w) :: set key v rest
  end.

(** [Object.entries(o)]. *)
Definition entries {V : Type} (o : Rec V) : list (string * V) := o.

(** [Object.fromEntries(es)]: each entry is assigned in turn. *)
Definition fromEntries {V : Type} (es : list (string * V)) : Rec V :=
  fold_left (fun o kv => set (fst kv) (snd kv) o) es [].

Definition keys {V : Type} (o : Rec V) : list string := map fst o.

End Obj.

(** Exceptions: the engine's own [TypeError], or whatever a caller's
    function throws. *)
Inductive Exn : Type :=
| TypeError
| Thrown (payload : Value).

Inductive Result (A : Type) : Type :=
| Ok (a : A)
| Throw (e : Exn).

Arguments Ok {A} a.
Arguments Throw {A} e.

Definition bind {A B : Type} (r : Result A) (k : A -> Result B) : Result B :=
  match r with
  | Ok a => k a
  | Throw e => Throw e
  end.

Notation "x <- r ;; k" := (bind r (fun x => k))
  (at level 61, r at next level, right associativity).

(** [xs.map(f)] where [f] may throw: elements are visited left to right and
    the first exception ends the loop. *)
Fixpoint mapM {A B : Type} (f : A -> Result B) (xs : list A) : Result (list B) :=
  match xs with
  | [] => Ok []
  | x :: rest => y <- f x ;; ys <- mapM f rest ;; Ok (y :: ys)
  end.

(** JavaScript truthiness. *)
Definition truthy (v : Value) : bool :=
  match v with
  | VUndefined | VNull => false
  | VBool b => b
  | VNum n => negb (Z.eqb n 0)
  | VStr s => negb (String.eqb s "")
  | VArr _ | VObj _ | VBuiltin _ => true
  end.

Definition string_of_nat (n : nat) : string :=
  NilZero.string_of_uint (Nat.to_uint n).

Fixpoint indexed {A : Type} (i : nat) (xs : list A) : Rec A :=
  match xs with
  | [] => []
  | x :: rest => (string_of_nat i, x) :: indexed (S i) rest
  end.

Fixpoint chars (s : string) : list Value :=
  match s with
  | EmptyString => []
  | String c rest => VStr (String c EmptyString) :: chars rest
  end.

(** [{...v}]: the own enumerable properties of [v]; none for [undefined],
    [null], booleans, numbers and built-ins. *)
Definition spread (v : Value) : Rec Value :=
  match v with
  | VObj props => props
  | VArr items => indexed 0 items
  | VStr s => indexed 0 (chars s)
  | _ => []
  end.

Definition orUndefined (o : option Value) : Value :=
  match o with
  | Some v => v
  | None => VUndefined
  end.

(** The string-keyed members of [Object.prototype], which every plain
    object inherits. *)
Definition inheritedNames : list string :=
  ["constructor"; "hasOwnProperty"; "isPrototypeOf"; "propertyIsEnumerable";
   "toLocaleString"; "toString"; "valueOf"; "__proto__";
   "__defineGetter__"; "__defineSetter__"; "__lookupGetter__"; "__lookupSetter__"].

Definition inherited (key : string) : bool :=
  existsb (String.eqb key) inheritedNames.

(** [Object.prototype[key]]. *)
Definition prototypeMember (key : string) : Value :=
  if inherited key then VBuiltin key else VUndefined.

(** [o[key]] for an object with the own properties [o]: the own property
    and otherwise, up the prototype chain, the member of
    [Object.prototype]. *)
Definition readPlain (key : string) (o : Rec Value) : Value :=
  match Obj.get key o with
  | Some v => v
  | None => prototypeMember key
  end.

(** [v[key]]: throws on [undefined] and [null]; a property found neither on
    the value nor up its prototype chain reads as [undefined].  The own
    properties are those of [spread], and the [length] of an array and of a
    string; the chain is followed for the names of [Object.prototype]. *)
Definition getProp (v : Value) (key : string) : Result Value :=
  match v with
  | VUndefined | VNull => Throw TypeError
  | VObj props => Ok (readPlain key props)
  | VArr items =>
      if String.eqb key "length" then Ok (VNum (Z.of_nat (List.length items)))
      else Ok (readPlain key (indexed 0 items))
  | VStr s =>
      if String.eqb key "length" then Ok (VNum (Z.of_nat (String.length s)))
      else Ok (readPlain key (indexed 0 (chars s)))
  | VBool _ | VNum _ | VBuiltin _ => Ok (prototypeMember key)
  end.

(** ** The schema tree *)

(** [core.NexusWrapKind]. *)
Inductive NexusWrapKind : Type := WList | WNonNull | WNull.

Definition wrapKind_eqb (a b : NexusWrapKind) : bool :=
  match a, b with
  | WList, WList | WNonNull, WNonNull | WNull, WNull => true
  | _, _ => false
  end.

(** [wrapping.includes(k)]. *)
Definition includes (k : NexusWrapKind) (wrapping : list NexusWrapKind) : bool :=
  existsb (wrapKind_eqb k) wrapping.

(** The [extensions] property of a definition: absent, or a record (a
    [null] one, which the typings of graphql-js also admit, is not
    modelled). *)
Definition Extensions : Type := Rec Value.

(** [GraphQLInputField]: what [getFields()] of an input object type holds. *)
Record InputField (Ty : Type) : Type := mkInputField {
  fieldType : Ty;
  fieldExtensions : option Extensions
}.

(** GraphQL input types: the two wrapping types and the named types (leaf
    types, that is scalars and enums, and input object types). *)
Inductive GType : Type :=
| GList (ofType : GType)
| GNonNull (ofType : GType)
| GScalar (name : string) (extensions : option Extensions)
| GInputObject (name : string) (extensions : option Extensions)
               (fields : Rec (InputField GType)).

(** [ArgDef = GraphQLArgumentConfig], reduced to the two properties the
    traversal reads. *)
Record ArgDef : Type := mkArgDef {
  argType : GType;
  argExtensions : option Extensions
}.

(** [ArgType = GraphQLInputType | GraphQLInputField | GraphQLNamedType]. *)
Inductive ArgType : Type :=
| ATType (t : GType)
| ATField (f : InputField GType).

(** [Node]: what a reducer is shown.  The traversal never passes a
    [Record<string, ArgType>], the fourth member of the union. *)
Inductive Node : Type :=
| NArgDef (d : ArgDef)
| NArgType (t : ArgType)
| NArgDefs (r : Rec ArgDef).

(** [isWrappingType], [isInputObjectType] and [isListType] of graphql-js. *)
Definition isWrappingType (t : GType) : bool :=
  match t with
  | GList _ | GNonNull _ => true
  | _ => false
  end.

Definition isInputObjectType (t : ArgType) : bool :=
  match t with
  | ATType (GInputObject _ _ _) => true
  | _ => false
  end.

Definition isListType (node : Node) : bool :=
  match node with
  | NArgType (ATType (GList _)) => true
  | _ => false
  end.

(** [argType.getFields()], for the input object type the caller holds. *)
Definition getFields (t : GType) : Rec (InputField GType) :=
  match t with
  | GInputObject _ _ fields => fields
  | _ => []
  end.

(** Modelled from the spec: [core.unwrapGraphQLDef] belongs to the nexus
    library, which is not under src/.  Section 3 of the specification has the
    unwrap operation return the terminal named type plus the ordered sequence
    of wrapper kinds encountered, outermost first. *)
Fixpoint unwrapGraphQLDef (t : GType) : GType * list NexusWrapKind :=
  match t with
  | GList t' => let (named, w) := unwrapGraphQLDef t' in (named, WList :: w)
  | GNonNull t' => let (named, w) := unwrapGraphQLDef t' in (named, WNonNull :: w)
  | _ => (t, [])
  end.

(** [unwrapType].  A [GraphQLInputField] is not a type, so the function
    restarts from its [type].  The branch for [core.isNexusWrappingType] sits
    behind [isType]: no GraphQL type object is a Nexus wrapping definition,
    so that branch is never taken on the values of [ArgType]. *)
Definition unwrapType (type : ArgType) : ArgType * list NexusWrapKind :=
  let t := match type with
           | ATField f => fieldType f
           | ATType t => t
           end in
  if isWrappingType t
  then let (named, w) := unwrapGraphQLDef t in (ATType named, w)
  else (ATType t, []).

(** ** The reducer ([input-type-traversal]) *)

Section Traversal.

(** The values of the reducer's result type other than [undefined]. *)
Variable T : Type.

Record NodeCtx : Type := mkCtx {
  key : option string;
  wrapping : list NexusWrapKind;
  initialNodeValue : option T
}.

(** [{ ...ctx, wrapping }]. *)
Definition withWrapping (ctx : NodeCtx) (w : list NexusWrapKind) : NodeCtx :=
  {| key := key ctx; wrapping := w; initialNodeValue := initialNodeValue ctx |}.

(** [T | Record<string, T>], the first argument of a reducer. *)
Inductive ChildValues : Type :=
| CVInitial (v : option T)
| CVRecord (r : Rec (option T)).

Definition Reducer : Type := ChildValues -> Node -> NodeCtx -> option T.

(** [([_, v]) => v !== undefined]. *)
Definition isDefinedEntry (kv : string * option T) : bool :=
  match snd kv with
  | Some _ => true
  | None => false
  end.

(** [if (nextValue !== undefined) { return nextValue; } return rest]. *)
Definition orElse (nextValue : option T) (rest : option T) : option T :=
  match nextValue with
  | Some v => Some v
  | None => rest
  end.

Variable reducer : Reducer.

(** The body of [reduceOverArgType] on a field of an input object type,
    with the continuation at the field's terminal type left open. *)
Definition reduceFieldWith (atTerminal : GType -> NodeCtx -> option T)
    (init : option T) (kf : string * InputField GType) : string * option T :=
  let ctx := {| key := Some (fst kf); wrapping := []; initialNodeValue := init |} in
  let w := snd (unwrapType (ATField (snd kf))) in
  (fst kf,
   orElse (reducer (CVInitial (initialNodeValue ctx)) (NArgType (ATField (snd kf)))
                   (withWrapping ctx w))
          (atTerminal (fieldType (snd kf)) (withWrapping ctx w))).

(** [reduceOverWrappedType] at the terminal named type of [t].  The source
    reaches the terminal type through [unwrapType]; here the wrappers are
    peeled by structural recursion.  The lemmas [reduceOverTerminal_eq] and
    [reduceOverObjectType_eq] below give back the source's equations. *)
Fixpoint reduceOverTerminal (t : GType) (ctx : NodeCtx) {struct t} : option T :=
  match t with
  | GList t' => reduceOverTerminal t' ctx
  | GNonNull t' => reduceOverTerminal t' ctx
  | GScalar _ _ =>
      orElse (reducer (CVInitial (initialNodeValue ctx)) (NArgType (ATType t)) ctx) None
  | GInputObject _ _ fields =>
      orElse (reducer (CVInitial (initialNodeValue ctx)) (NArgType (ATType t)) ctx)
        (reducer
           (CVRecord
              (Obj.fromEntries
                 (filter isDefinedEntry
                    (map (reduceFieldWith reduceOverTerminal (initialNodeValue ctx))
                         (Obj.entries fields)))))
           (NArgType (ATType t)) ctx)
  end.

Definition reduceOverObjectType (argType : GType) (ctx : NodeCtx) : option T :=
  let childValues :=
    filter isDefinedEntry
      (map (reduceFieldWith reduceOverTerminal (initialNodeValue ctx))
           (Obj.entries (getFields argType))) in
  reducer (CVRecord (Obj.fromEntries childValues)) (NArgType (ATType argType)) ctx.

Definition reduceOverWrappedType (argType : ArgType) (ctx : NodeCtx) : option T :=
  let nextValue := reducer (CVInitial (initialNodeValue ctx)) (NArgType argType) ctx in
  orElse nextValue
    (match argType with
     | ATType (GInputObject _ _ _ as t) => reduceOverObjectType t ctx
     | _ => None
     end).

Definition reduceOverArgType (argType : ArgType) (ctx : NodeCtx) : option T :=
  let (namedType, w) := unwrapType argType in
  let nextValue :=
    reducer (CVInitial (initialNodeValue ctx)) (NArgType argType) (withWrapping ctx w) in
  orElse nextValue (reduceOverWrappedType namedType (withWrapping ctx w)).

Definition reduceOverArgDef (argDef : ArgDef) (ctx : NodeCtx) : option T :=
  let nextValue := reducer (CVInitial (initialNodeValue ctx)) (NArgDef argDef) ctx in
  orElse nextValue (reduceOverArgType (ATType (argType argDef)) ctx).

Definition reduceOverArgDefs (argDefs : Rec ArgDef) (initialNodeValue : option T)
  : option T :=
  let childEntries :=
    filter isDefinedEntry
      (map (fun kd : string * ArgDef =>
              (fst kd,
               reduceOverArgDef (snd kd)
                 {| key := Some (fst kd); wrapping := [];
                    initialNodeValue := initialNodeValue |}))
           (Obj.entries argDefs)) in
  reducer (CVRecord (Obj.fromEntries childEntries)) (NArgDefs argDefs)
    {| key := None; wrapping := []; initialNodeValue := initialNodeValue |}.

End Traversal.

Arguments CVInitial {T} v.
Arguments CVRecord {T} r.

(** ** The transform compiler ([input-transformer.ts]) *)

(** What [node.extensions[name]] can evaluate to: a stored value or, when
    [node.extensions] is itself a definition, that definition's type. *)
Inductive Any : Type :=
| AValue (v : Value)
| AType (t : GType).

Definition undefinedAny : Any := AValue VUndefined.

Definition truthyAny (a : Any) : bool :=
  match a with
  | AValue v => truthy v
  | AType _ => true
  end.

(** What [(node as any).extensions] can evaluate to when it is not
    [undefined]: the extensions map of a type or of a field of an input
    object type, which has no prototype ([toObjMap] of graphql-js); the
    extensions object of an argument definition, a plain object as the
    schema builder wrote it; or, on a record of argument definitions, the
    argument that happens to be named [extensions]. *)
Inductive ExtensionsProp : Type :=
| EExtensions (e : Extensions)
| EPlainExtensions (e : Extensions)
| EArgDef (d : ArgDef).

Definition ofExtensions (e : option Extensions) : option ExtensionsProp :=
  match e with
  | Some r => Some (EExtensions r)
  | None => None
  end.

Definition ofPlainExtensions (e : option Extensions) : option ExtensionsProp :=
  match e with
  | Some r => Some (EPlainExtensions r)
  | None => None
  end.

(** [(node as any).extensions]. *)
Definition extensionsOf (node : Node) : option ExtensionsProp :=
  match node with
  | NArgDef d => ofPlainExtensions (argExtensions d)
  | NArgType (ATField f) => ofExtensions (fieldExtensions f)
  | NArgType (ATType (GScalar _ e)) => ofExtensions e
  | NArgType (ATType (GInputObject _ e _)) => ofExtensions e
  | NArgType (ATType (GList _)) => None
  | NArgType (ATType (GNonNull _)) => None
  | NArgDefs r =>
      match Obj.get "extensions" r with
      | Some d => Some (EArgDef d)
      | None => None
      end
  end.

(** [o[name]] for the object [o] found under [extensions].  An argument
    definition is a plain object with the own properties [type] and, when it
    has one, [extensions]. *)
Definition extensionsProp (o : ExtensionsProp) (name : string) : Any :=
  match o with
  | EExtensions e => AValue (orUndefined (Obj.get name e))
  | EPlainExtensions e => AValue (readPlain name e)
  | EArgDef d =>
      if String.eqb name "type" then AType (argType d)
      else if String.eqb name "extensions" then
        match argExtensions d with
        | Some e => AValue (VObj e)
        | None => undefinedAny
        end
      else AValue (prototypeMember name)
  end.

(** [InputTransform]: a function of one argument that may throw. *)
Definition InputTransform : Type := Value -> Result Value.

(** The defined values of [InputTransform | undefined], to which the
    [null] passed as [initialNodeValue] is added. *)
Inductive TVal : Type :=
| TNull
| TFun (f : InputTransform).

(** [KeyTransformer = [string, InputTransform]], as the entries of a
    [Record<string, T>] hold them. *)
Definition KeyTransformer : Type := (string * option TVal)%type.

Record InputTransformer : Type := mkInputTransformer {
  extensionName : string;
  extractConfig : Rec Value -> Result Any;
  transform : Value -> Any -> Result Value
}.

(** [f(x)] for an [f] that need not be a function. *)
Definition call (f : option TVal) (x : Value) : Result Value :=
  match f with
  | Some (TFun g) => g x
  | _ => Throw TypeError
  end.

(** [xs.reduce(step, init)] for a [step] that may throw. *)
Fixpoint reduceM {A B : Type} (step : B -> A -> Result B) (xs : list A) (init : B)
  : Result B :=
  match xs with
  | [] => Ok init
  | x :: rest => carry <- step init x ;; reduceM step rest carry
  end.

(** [{ ...carry, [key]: transform(carry[key]) }]. *)
Definition composeStep (carry : Value) (kt : KeyTransformer) : Result Value :=
  v <- getProp carry (fst kt) ;;
  v' <- call (snd kt) v ;;
  Ok (VObj (Obj.set (fst kt) v' (spread carry))).

Definition composeKeyTransformers (keyTransformers : list KeyTransformer)
  : InputTransform :=
  fun args => reduceM composeStep keyTransformers args.

Definition makeTransform (this : InputTransformer) (config : Any) : InputTransform :=
  fun input => transform this input config.

(** [input.map(transform)]: only an array has a [map] to call. *)
Definition makeListTransform (this : InputTransformer) (config : Any)
  : InputTransform :=
  let transform := makeTransform this config in
  fun input =>
    match input with
    | VArr items => items' <- mapM transform items ;; Ok (VArr items')
    | _ => Throw TypeError
    end.

Definition hasExtensions (node : Node) : bool :=
  negb (isListType node) &&
  match extensionsOf node with
  | Some _ => true
  | None => false
  end.

Definition getExtensions (this : InputTransformer) (node : Node) : Any :=
  if negb (hasExtensions node) then undefinedAny
  else match extensionsOf node with
       | Some o => extensionsProp o (extensionName this)
       | None => undefinedAny
       end.

(** [Object.entries(childValues ?? {})]: [null], [undefined] and a function
    have no entries. *)
Definition childEntriesOf (childValues : ChildValues TVal) : list KeyTransformer :=
  match childValues with
  | CVRecord r => Obj.entries r
  | CVInitial _ => []
  end.

(** The reducer that [buildResolverMiddleware] passes to [reduceOverArgDefs]. *)
Definition visit (this : InputTransformer) : Reducer TVal :=
  fun childValues currentNode ctx =>
    let childEntries := childEntriesOf childValues in
    if Nat.ltb 0 (List.length childEntries)
    then Some (TFun (composeKeyTransformers childEntries))
    else
      let extensions := getExtensions this currentNode in
      if negb (truthyAny extensions) then None
      else if includes WList (wrapping ctx)
           then Some (TFun (makeListTransform this extensions))
           else Some (TFun (makeTransform this extensions)).

Definition buildResolverMiddleware (this : InputTransformer) (argDefs : Rec ArgDef)
  : option TVal :=
  reduceOverArgDefs (visit this) argDefs (Some TNull).

(** ** Annotated positions *)

(** The value stored under [name] in an [extensions] property, [undefined]
    when there is none.  It is what the engine reads off the extensions of
    a type and of a field of an input object type. *)
Definition annotation (name : string) (e : option Extensions) : Value :=
  match e with
  | Some r => orUndefined (Obj.get name r)
  | None => VUndefined
  end.

(** A position carries an annotation under [name] when a configuration is
    stored there.  A configuration is an object ([Config extends
    Record<string, any>]); the engine takes any truthy value for one. *)
Definition annotatedAt (name : string) (e : option Extensions) : bool :=
  truthy (annotation name e).

(** What the engine reads under [name] off the [extensions] of an argument
    definition, a plain object: the value stored there and otherwise, when
    [name] is the name of a member of [Object.prototype], that member. *)
Definition definitionAnnotation (name : string) (e : option Extensions) : Value :=
  match e with
  | Some r => readPlain name r
  | None => VUndefined
  end.

(** An argument definition reads as annotated under [name]. *)
Definition definitionAnnotatedAt (name : string) (e : option Extensions) : bool :=
  truthy (definitionAnnotation name e).

Definition fieldAnnotatedWith (typeAnnotated : GType -> bool) (name : string)
    (kf : string * InputField GType) : bool :=
  annotatedAt name (fieldExtensions (snd kf)) || typeAnnotated (fieldType (snd kf)).

(** Some position at or below the type [t] carries an annotation. *)
Fixpoint typeAnnotated (name : string) (t : GType) {struct t} : bool :=
  match t with
  | GList t' => typeAnnotated name t'
  | GNonNull t' => typeAnnotated name t'
  | GScalar _ e => annotatedAt name e
  | GInputObject _ e fields =>
      annotatedAt name e
      || existsb (fieldAnnotatedWith (typeAnnotated name) name) fields
  end.

(** The argument definition [d] reads as annotated, or some position of its
    type carries an annotation. *)
Definition argDefAnnotated (name : string) (d : ArgDef) : bool :=
  definitionAnnotatedAt name (argExtensions d) || typeAnnotated name (argType d).

(** Some position of the field-definition tree reads as annotated. *)
Definition treeAnnotated (name : string) (argDefs : Rec ArgDef) : bool :=
  existsb (fun kd => argDefAnnotated name (snd kd)) argDefs.

(** Two field sets with the same keys in the same order whose fields are
    related field by field: same annotation under [name], types related by
    [same]. *)
Fixpoint sameFields (same : GType -> GType -> Prop) (name : string)
    (fs fs' : Rec (InputField GType)) {struct fs} : Prop :=
  match fs, fs' with
  | [], [] => True
  | kf :: rest, kf' :: rest' =>
      (fst kf = fst kf'
       /\ annotation name (fieldExtensions (snd kf))
          = annotation name (fieldExtensions (snd kf'))
       /\ same (fieldType (snd kf)) (fieldType (snd kf')))
      /\ sameFields same name rest rest'
  | _, _ => False
  end.

(** Two types that read alike under [name]: they differ at most in what
    their [extensions] store under other keys. *)
Fixpoint sameType (name : string) (t t' : GType) {struct t} : Prop :=
  match t, t' with
  | GList a, GList b => sameType name a b
  | GNonNull a, GNonNull b => sameType name a b
  | GScalar n e, GScalar n' e' => n = n' /\ annotation name e = annotation name e'
  | GInputObject n e fields, GInputObject n' e' fields' =>
      n = n' /\ annotation name e = annotation name e'
      /\ sameFields (sameType name) name fields fields'
  | _, _ => False
  end.

Definition sameArgDef (name : string) (kd kd' : string * ArgDef) : Prop :=
  fst kd = fst kd'
  /\ definitionAnnotation name (argExtensions (snd kd))
     = definitionAnnotation name (argExtensions (snd kd'))
  /\ sameType name (argType (snd kd)) (argType (snd kd')).

(** Two trees that read alike under [name], position by position. *)
Definition sameTree (name : string) (argDefs argDefs' : Rec ArgDef) : Prop :=
  Forall2 (sameArgDef name) argDefs argDefs'.

(** ** Allocation

    The bags a compiled function receives and returns are objects of the
    JavaScript heap.  To speak of allocation and mutation, the composed
    function is given a second reading over an explicit heap of bags: an
    address is a position in the heap, and an object literal of the
    composed function allocates.  The heap holds the bags the function is
    given and the ones its own object literals allocate; a bag holds its
    values as they are, and what a key transformer allocates on its own
    account is not followed. *)

Module Heap.

Definition Addr : Type := nat.
Definition t : Type := list (Rec Value).

Definition read (a : Addr) (h : t) : option (Rec Value) := nth_error h a.

(** An object literal: a fresh object, at an address not in use. *)
Definition alloc (o : Rec Value) (h : t) : Addr * t := (List.length h, h ++ [o]).

(** [{ ...carry, [key]: transform(carry[key]) }] with [carry] a reference
    to a bag. *)
Definition composeStep (carry : Addr) (kt : KeyTransformer) (h : t)
  : Result (Addr * t) :=
  match read carry h with
  | None => Throw TypeError
  | Some o =>
      v' <- call (snd kt) (readPlain (fst kt) o) ;;
      Ok (alloc (Obj.set (fst kt) v' o) h)
  end.

(** [keyTransformers.reduce(..., args)]: with no key transformer the
    reference [args] itself is returned. *)
Fixpoint composeKeyTransformers (keyTransformers : list KeyTransformer)
    (args : Addr) (h : t) {struct keyTransformers} : Result (Addr * t) :=
  match keyTransformers with
  | [] => Ok (args, h)
  | kt :: rest =>
      r <- composeStep args kt h ;;
      composeKeyTransformers rest (fst r) (snd r)
  end.

End Heap.

(** ** The specification's wording of the continue signal

    Section 4.1 of the specification: a visitor result of exactly the
    caller's [empty] sentinel, and nothing else, continues the descent.
    [SentinelSignals] says so for the first descent point of a field. *)
Definition SentinelSignals (T : Type) : Prop :=
  forall (reducer : Reducer T) (argDef : ArgDef) (ctx : NodeCtx T),
    let result := reducer (CVInitial (initialNodeValue ctx)) (NArgDef argDef) ctx in
    (result = initialNodeValue ctx ->
     reduceOverArgDef reducer argDef ctx
     = reduceOverArgType reducer (ATType (argType argDef)) ctx)
    /\ (result <> initialNodeValue ctx ->
        reduceOverArgDef reducer argDef ctx = result).

(** A visitor over [nat] that answers the sentinel [0] on a field definition
    and [1] on every type. *)
Definition zeroThenOne : Reducer nat :=
  fun _ node _ =>
    match node with
    | NArgDef _ => Some 0
    | _ => Some 1
    end.

(** A visitor that answers [undefined] on a field definition and [1] on every
    type. *)
Definition undefinedThenOne : Reducer nat :=
  fun _ node _ =>
    match node with
    | NArgDef _ => None
    | _ => Some 1
    end.

Definition intField : ArgDef := mkArgDef (GScalar "Int" None) None.

(** ** The repository's test plugin and tree ([input-transformer.test.ts]) *)

(** [buildExpectPlugin]: the transform answers [config.to]. *)
Definition expectPlugin : InputTransformer :=
  {| extensionName := "expectPlugin";
     extractConfig := fun options =>
       Ok (AValue (VObj [("typeConstructor", orUndefined (Obj.get "typeConstructor" options));
                         ("to", orUndefined (Obj.get "to" options))]));
     transform := fun _input config =>
       match config with
       | AValue c => getProp c "to"
       | AType _ => Ok VUndefined
       end |}.

(** What [expectInput] stores on the field it declares. *)
Definition expect (to : Value) : option Extensions :=
  Some [("expectPlugin", VObj [("to", to)])].

Definition GraphQLString : GType := GScalar "String" None.
Definition GraphQLInt : GType := GScalar "Int" None.
Definition GraphQLBoolean : GType := GScalar "Boolean" None.

(** [t.nonNull.list.nonNull.expectInput("expectedList", ...)]. *)
Definition expectedList : InputField GType :=
  mkInputField (GNonNull (GList (GNonNull GraphQLString)))
               (expect (VStr "TRANSFORMED LIST")).

Definition NestedInput : GType :=
  GInputObject "NestedInput" None
    [("foo", mkInputField (GNonNull GraphQLString) None);
     ("bar", mkInputField (GNonNull GraphQLString) None);
     ("baz", mkInputField (GNonNull GraphQLString) None)].

Definition Input : GType :=
  GInputObject "Input" None
    [("id", mkInputField (GNonNull GraphQLString) None);
     ("int", mkInputField (GNonNull GraphQLInt) None);
     ("boolean", mkInputField (GNonNull GraphQLBoolean) None);
     ("expected1", mkInputField (GNonNull GraphQLString) (expect (VStr "TRANSFORMED 1")));
     ("expected2", mkInputField (GNonNull GraphQLString) (expect (VStr "TRANSFORMED 2")));
     ("expectedList", expectedList);
     ("nested", mkInputField (GNonNull NestedInput)
                  (expect (VObj [("foo", VStr "this"); ("bar", VStr "is");
                                 ("baz", VStr "TRANSFORMED")])))].

Definition getOutputArgs : Rec ArgDef := [("input", mkArgDef (GNonNull Input) None)].

Definition getOutputInput : Value :=
  VObj [("input",
         VObj [("id", VStr "id"); ("int", VNum 2); ("boolean", VBool true);
               ("expected1", VStr "hello"); ("expected2", VStr "world");
               ("expectedList", VArr [VStr "Oh"; VStr "my"; VStr "goodness"; VStr "me"]);
               ("nested", VObj [("foo", VStr "Hello"); ("bar", VStr "World!");
                                ("baz", VStr "It's me!")])])].

Definition getOutputExpected : Value :=
  VObj [("input",
         VObj [("id", VStr "id"); ("int", VNum 2); ("boolean", VBool true);
               ("expected1", VStr "TRANSFORMED 1"); ("expected2", VStr "TRANSFORMED 2");
               ("expectedList", VArr [VStr "TRANSFORMED LIST"; VStr "TRANSFORMED LIST";
                                      VStr "TRANSFORMED LIST"; VStr "TRANSFORMED LIST"]);
               ("nested", VObj [("foo", VStr "this"); ("bar", VStr "is");
                                ("baz", VStr "TRANSFORMED")])])].

(** [f(x)] for the function a compilation returned, if it returned one. *)
Definition invoke (compiled : option TVal) (x : Value) : option (Result Value) :=
  match compiled with
  | Some (TFun f) => Some (f x)
  | _ => None
  end.

(** ** Where the list wrapper sits *)

(** The configuration a type position resolves to: the one on the position
    itself (a field, or the type as written) and otherwise the one on its
    terminal named type. *)
Definition configAt (this : InputTransformer) (argType : ArgType) : Any :=
  let c := getExtensions this (NArgType argType) in
  if truthyAny c then c
  else getExtensions this (NArgType (fst (unwrapType argType))).

(** The specification's wording: the transform is list-wrapped exactly when
    the outermost wrapper kind is the list kind.  [outermost] reads the
    outermost kind off the accumulated sequence. *)
Definition ListAtOutermost
    (outermost : list NexusWrapKind -> option NexusWrapKind) : Prop :=
  forall (this : InputTransformer) (f : InputField GType) (ctx : NodeCtx TVal),
    truthyAny (configAt this (ATField f)) = true ->
    (reduceOverArgType (visit this) (ATField f) ctx
     = Some (TFun (makeListTransform this (configAt this (ATField f))))
     <-> outermost (snd (unwrapType (ATField f))) = Some WList).

(** The outermost kind of a sequence written outermost first, and of one
    written innermost first. *)
Definition firstKind (w : list NexusWrapKind) : option NexusWrapKind := hd_error w.
Definition lastKind (w : list NexusWrapKind) : option NexusWrapKind := hd_error (rev w).

(** ** A list-wrapped position *)

(** A transform that multiplies a number by two, and rejects anything else. *)
Definition doubling : InputTransformer :=
  {| extensionName := "double";
     extractConfig := fun options => Ok (AValue (VObj options));
     transform := fun input _config =>
       match input with
       | VNum n => Ok (VNum (2 * n))
       | _ => Throw (Thrown (VStr "not a number"))
       end |}.

(** An argument [xs] typed as a list of a scalar that carries the annotation. *)
Definition xsArgs : Rec ArgDef :=
  [("xs", mkArgDef (GList (GScalar "Doubled" (Some [("double", VObj [])]))) None)].

(** The specification's wording: an empty or absent input sequence
    propagates unchanged through a list-wrapped transform. *)
Definition EmptyOrAbsentPropagates : Prop :=
  forall (this : InputTransformer) (config : Any) (input : Value),
    input = VArr [] \/ input = VUndefined \/ input = VNull ->
    makeListTransform this config input = Ok input.

(** A key transformer returns on the value a bag reads under its key. *)
Definition returnsOn (bag : Rec Value) (kt : KeyTransformer) : Prop :=
  exists r, call (snd kt) (readPlain (fst kt) bag) = Ok r.

(** A transform that throws what it is given. *)
Definition throwing : TVal := TFun (fun v => Throw (Thrown v)).

(** A transform that answers a constant. *)
Definition constantly (v : Value) : TVal := TFun (fun _ => Ok v).

(** ** A single annotated scalar position *)

(** The annotation on the terminal named type of [t]. *)
Definition terminalAnnotation (name : string) (t : GType) : Value :=
  match fst (unwrapGraphQLDef t) with
  | GScalar _ e => annotation name e
  | GInputObject _ e _ => annotation name e
  | _ => VUndefined
  end.

(** The configuration of a field definition: the one it carries itself, and
    otherwise the one its terminal named type carries. *)
Definition firstAnnotation (name : string) (d : ArgDef) : Value :=
  if definitionAnnotatedAt name (argExtensions d)
  then definitionAnnotation name (argExtensions d)
  else terminalAnnotation name (argType d).

(** A scalar field: its terminal type is a leaf type, and no list wrapper
    surrounds it. *)
Definition scalarField (d : ArgDef) : bool :=
  match fst (unwrapGraphQLDef (argType d)) with
  | GScalar _ _ => negb (includes WList (snd (unwrapGraphQLDef (argType d))))
  | _ => false
  end.

(** The specification's example: "replace with constant", configuration
    [{ to: "X" }], on the field [b]. *)
Definition keepAndReplaceArgs : Rec ArgDef :=
  [("a", mkArgDef GraphQLString None);
   ("b", mkArgDef GraphQLString (expect (VStr "X")))].

(** The outcome of a reduction: a function when the position is annotated,
    [undefined] when it is not. *)
Definition decides (annotated : bool) (r : option TVal) : Prop :=
  if annotated then exists f, r = Some (TFun f) else r = None.

(** ** A record of definitions with a field named [extensions] *)

(** A transformer constructed with the key ["type"]; its transform replaces
    whatever it is given. *)
Definition typeKeyed : InputTransformer :=
  {| extensionName := "type";
     extractConfig := fun options => Ok (AValue (VObj options));
     transform := fun _input _config => Ok (VStr "REPLACED") |}.

(** One argument, named [extensions], of type [String], with no annotation
    anywhere. *)
Definition extensionsArgs : Rec ArgDef := [("extensions", mkArgDef GraphQLString None)].

(** A transformer constructed with the key ["extensions"]; its transform
    answers the configuration it is given. *)
Definition extensionsKeyed : InputTransformer :=
  {| extensionName := "extensions";
     extractConfig := fun options => Ok (AValue (VObj options));
     transform := fun _input config =>
       match config with
       | AValue c => Ok c
       | AType _ => Ok VUndefined
       end |}.

(** The same argument, annotated by another transformer under the key
    ["other"], with one configuration and then with another. *)
Definition otherAnnotated (n : Z) : Rec ArgDef :=
  [("extensions", mkArgDef GraphQLString (Some [("other", VNum n)]))].

(** ** A malformed annotation *)

(** A transformer whose extractor and transform both insist on a [to]
    option. *)
Definition strict : InputTransformer :=
  {| extensionName := "strict";
     extractConfig := fun options =>
       match Obj.get "to" options with
       | Some v => Ok (AValue (VObj [("to", v)]))
       | None => Throw (Thrown (VStr "missing option: to"))
       end;
     transform := fun _input config =>
       match config with
       | AValue (VObj o) =>
           match Obj.get "to" o with
           | Some v => Ok v
           | None => Throw (Thrown (VStr "invalid configuration"))
           end
       | _ => Throw (Thrown (VStr "invalid configuration"))
       end |}.

(** A field declared with options from which [strict] extracts nothing. *)
Definition malformedArgs : Rec ArgDef :=
  [("x", mkArgDef GraphQLString (Some [("strict", VObj [("from", VStr "?")])]))].



(** The key transformers a compilation finds for the top-level fields: the
    [childEntries] of [reduceOverArgDefs], as the reducer receives them. *)
Definition discovered (this : InputTransformer) (argDefs : Rec ArgDef)
  : list KeyTransformer :=
  Obj.fromEntries
    (filter (@isDefinedEntry TVal)
       (map (fun kd : string * ArgDef =>
               (fst kd,
                reduceOverArgDef (visit this) (snd kd)
                  {| key := Some (fst kd); wrapping := [];
                     initialNodeValue := Some TNull |}))
            (Obj.entries argDefs))).

(** ** What the fold shows a visitor

    The four shapes of a call the traversal makes, for a fold started with
    [init]: the root record with the defined results of its fields; a field
    definition, under its key and with no wrapper kind; a type position (a
    type as written, a field of an input object type or a terminal named
    type), under the key of the enclosing field; an input object type with
    the defined results of its fields.  Outside a record the visitor is
    handed [init] itself. *)
Inductive Shown (T : Type) (init : option T)
  : ChildValues T -> Node -> NodeCtx T -> Prop :=
| shown_root (r : Rec (option T)) (argDefs : Rec ArgDef) :
    Forall (fun kv => isDefinedEntry kv = true) r ->
    incl (Obj.keys r) (Obj.keys argDefs) ->
    Shown init (CVRecord r) (NArgDefs argDefs)
          {| key := None; wrapping := []; initialNodeValue := init |}
| shown_argDef (k : string) (d : ArgDef) :
    Shown init (CVInitial init) (NArgDef d)
          {| key := Some k; wrapping := []; initialNodeValue := init |}
| shown_argType (k : string) (w : list NexusWrapKind) (t : ArgType) :
    Shown init (CVInitial init) (NArgType t)
          {| key := Some k; wrapping := w; initialNodeValue := init |}
| shown_object (k : string) (w : list NexusWrapKind) (t : GType) (r : Rec (option T)) :
    Forall (fun kv => isDefinedEntry kv = true) r ->
    incl (Obj.keys r) (Obj.keys (getFields t)) ->
    isInputObjectType (ATType t) = true ->
    Shown init (CVRecord r) (NArgType (ATType t))
          {| key := Some k; wrapping := w; initialNodeValue := init |}.

(** Two folds, one started with [i1] and one with [i2], call their visitors
    in step: on the same node, under the same key and wrapper kinds, with
    the same record or each with its own initial value. *)
Inductive InStep (T : Type) (i1 i2 : option T)
  : ChildValues T -> NodeCtx T -> ChildValues T -> NodeCtx T -> Node -> Prop :=
| step_root (r : Rec (option T)) (argDefs : Rec ArgDef) :
    Forall (fun kv => isDefinedEntry kv = true) r ->
    incl (Obj.keys r) (Obj.keys argDefs) ->
    InStep i1 i2
      (CVRecord r) {| key := None; wrapping := []; initialNodeValue := i1 |}
      (CVRecord r) {| key := None; wrapping := []; initialNodeValue := i2 |}
      (NArgDefs argDefs)
| step_argDef (k : string) (d : ArgDef) :
    InStep i1 i2
      (CVInitial i1) {| key := Some k; wrapping := []; initialNodeValue := i1 |}
      (CVInitial i2) {| key := Some k; wrapping := []; initialNodeValue := i2 |}
      (NArgDef d)
| step_argType (k : string) (w : list NexusWrapKind) (t : ArgType) :
    InStep i1 i2
      (CVInitial i1) {| key := Some k; wrapping := w; initialNodeValue := i1 |}
      (CVInitial i2) {| key := Some k; wrapping := w; initialNodeValue := i2 |}
      (NArgType t)
| step_object (k : string) (w : list NexusWrapKind) (t : GType) (r : Rec (option T)) :
    Forall (fun kv => isDefinedEntry kv = true) r ->
    incl (Obj.keys r) (Obj.keys (getFields t)) ->
    isInputObjectType (ATType t) = true ->
    InStep i1 i2
      (CVRecord r) {| key := Some k; wrapping := w; initialNodeValue := i1 |}
      (CVRecord r) {| key := Some k; wrapping := w; initialNodeValue := i2 |}
      (NArgType (ATType t)).

(** The key transformers found for the fields of an input object type: the
    [childValues] of [reduceOverObjectType], as the reducer receives them. *)
Definition fieldTransformers (this : InputTransformer) (init : option TVal)
    (fields : Rec (InputField GType)) : list KeyTransformer :=
  Obj.fromEntries
    (filter (@isDefinedEntry TVal)
       (map (reduceFieldWith (visit this) (reduceOverTerminal (visit this)) init)
            (Obj.entries fields))).

(** An argument typed as a list of numbers, annotated on the argument
    definition itself. *)
Definition xsAnnotatedArgs : Rec ArgDef :=
  [("xs", mkArgDef (GList GraphQLInt) (Some [("double", VObj [])]))].

(** An argument typed as a list of input objects with one annotated field. *)
Definition Item : GType :=
  GInputObject "Item" None
    [("id", mkInputField GraphQLString (expect (VStr "ID")));
     ("note", mkInputField GraphQLString None)].

Definition itemsArgs : Rec ArgDef := [("items", mkArgDef (GList Item) None)].

(** An argument typed as an input object with one annotated field. *)
Definition boxArgs : Rec ArgDef :=
  [("keep", mkArgDef GraphQLString None); ("box", mkArgDef (GNonNull Item) None)].

(** ** The resolver middleware ([README.md], [input-transformer.test.ts])

    [onCreateFieldResolver] of a plugin built on an [InputTransformer]: no
    middleware when the field has no arguments or nothing compiles;
    otherwise [(root, args, ctx, info, next) => next(root, transform(args),
    ctx, info)].  [Next] is [next] with [root], [ctx] and [info] fixed, which
    the middleware hands on as they are. *)
Definition Next : Type := Value -> Result Value.

Definition onCreateFieldResolver (this : InputTransformer) (args : option (Rec ArgDef))
  : option (Value -> Next -> Result Value) :=
  match args with
  | None => None
  | Some argTypes =>
      match buildResolverMiddleware this argTypes with
      | Some (TFun transform) => Some (fun args next => a <- transform args ;; next a)
      | Some TNull => None
      | None => None
      end
  end.

(** ** The opaque-ID example ([src/unnamed/part_001]) *)

Module OpaqueID.

(** A destructuring default: it stands in for a property that is absent or
    [undefined], and for no other value. *)
Definition orDefault (v : option Value) (default : Value) : Value :=
  match v with
  | None => default
  | Some VUndefined => default
  | Some w => w
  end.

(** [extractConfig]: [const { prefix = "", cleanPrefix = false } = config;
    return { prefix, cleanPrefix }]. *)
Definition extractConfig (config : Rec Value) : Rec Value :=
  [("prefix", orDefault (Obj.get "prefix" config) (VStr ""));
   ("cleanPrefix", orDefault (Obj.get "cleanPrefix" config) (VBool false))].

End OpaqueID.

(** ** Two visitors over [nat]

    [countLeaves] counts the scalar positions of a tree: a leaf type answers
    [1], a record node the sum of its children.  [distrustful r] answers as
    [r] does, except on a record that holds an [undefined] entry. *)
Definition countLeaves : Reducer nat :=
  fun cv node _ =>
    match cv with
    | CVRecord r =>
        Some (list_sum (map (fun kv : string * option nat =>
                               match snd kv with
                               | Some n => n
                               | None => 0
                               end) r))
    | CVInitial _ =>
        match node with
        | NArgType (ATType (GScalar _ _)) => Some 1
        | _ => None
        end
    end.

Definition distrustful (T : Type) (r : Reducer T) : Reducer T :=
  fun cv node ctx =>
    match cv with
    | CVRecord entries =>
        if forallb (@isDefinedEntry T) entries then r cv node ctx else None
    | CVInitial _ => r cv node ctx
    end.

(** ** Keys named like a member of [Object.prototype] *)

(** A transformer constructed with the key ["toString"]; its transform
    replaces whatever it is given. *)
Definition toStringKeyed : InputTransformer :=
  {| extensionName := "toString";
     extractConfig := fun options => Ok (AValue (VObj options));
     transform := fun _input _config => Ok (VStr "REPLACED") |}.

(** Two arguments of type [String]: [a], whose [extensions] object is empty,
    and [b], annotated under ["toString"]. *)
Definition siblingArgs : Rec ArgDef :=
  [("a", mkArgDef GraphQLString (Some []));
   ("b", mkArgDef GraphQLString (Some [("toString", VObj [("to", VStr "X")])]))].

(** A transformer whose transform tells whether it was given [undefined]. *)
Definition telling : InputTransformer :=
  {| extensionName := "tell";
     extractConfig := fun options => Ok (AValue (VObj options));
     transform := fun input _config =>
       match input with
       | VUndefined => Ok (VStr "undefined")
       | _ => Ok (VStr "other")
       end |}.

(** One argument, named [constructor], annotated under ["tell"]. *)
Definition constructorArgs : Rec ArgDef :=
  [("constructor", mkArgDef GraphQLString (Some [("tell", VObj [])]))].

(** A transformer constructed with the key ["type"]; its transform is
    [(input) => input]. *)
Definition echoKeyed : InputTransformer :=
  {| extensionName := "type";
     extractConfig := fun options => Ok (AValue (VObj options));
     transform := fun input _config => Ok input |}.

(** * Properties *)

(** ** Induction on types, through the fields of input object types *)

Section GTypeInduction.

Variable P : GType -> Prop.
Hypothesis HList : forall t, P t -> P (GList t).
Hypothesis HNonNull : forall t, P t -> P (GNonNull t).
Hypothesis HScalar : forall n e, P (GScalar n e).
Hypothesis HObject : forall n e fields,
    Forall (fun kf => P (fieldType (snd kf))) fields -> P (GInputObject n e fields).

Fixpoint GType_fields_ind (t : GType) : P t :=
  match t with
  | GList t' => HList (GType_fields_ind t')
  | GNonNull t' => HNonNull (GType_fields_ind t')
  | GScalar n e => HScalar n e
  | GInputObject n e fields =>
      HObject n e
        ((fix all (fs : Rec (InputField GType))
            : Forall (fun kf => P (fieldType (snd kf))) fs :=
            match fs with
            | [] => Forall_nil _
            | kf :: rest =>
                Forall_cons kf (GType_fields_ind (fieldType (snd kf))) (all rest)
            end) fields)
  end.

End GTypeInduction.

(** ** Records *)

Lemma get_set_eq (V : Type) (k : string) (v : V) (o : Rec V) :
  Obj.get k (Obj.set k v o) = Some v.
Proof.
  induction o as [|[k' w] rest IH]; simpl.
  - now rewrite String.eqb_refl.
  - destruct (String.eqb k' k) eqn:E; simpl; rewrite E; auto.
Qed.

Lemma get_set_neq (V : Type) (k k' : string) (v : V) (o : Rec V) :
  k <> k' -> Obj.get k' (Obj.set k v o) = Obj.get k' o.
Proof.
  intros Hne. induction o as [|[k0 w] rest IH]; simpl.
  - destruct (String.eqb k k') eqn:E; auto.
    apply String.eqb_eq in E. contradiction.
  - destruct (String.eqb k0 k) eqn:E; simpl.
    + apply String.eqb_eq in E. subst k0.
      destruct (String.eqb k k') eqn:E'; auto.
      apply String.eqb_eq in E'. contradiction.
    + destruct (String.eqb k0 k'); auto.
Qed.

(** Reads on a plain object. *)
Lemma readPlain_own (k : string) (v : Value) (o : Rec Value) :
  Obj.get k o = Some v -> readPlain k o = v.
Proof. unfold readPlain. now intros ->. Qed.

Lemma readPlain_absent (k : string) (o : Rec Value) :
  Obj.get k o = None -> inherited k = false -> readPlain k o = VUndefined.
Proof. unfold readPlain, prototypeMember. now intros -> ->. Qed.

Lemma readPlain_inherited (k : string) (o : Rec Value) :
  Obj.get k o = None -> inherited k = true -> readPlain k o = VBuiltin k.
Proof. unfold readPlain, prototypeMember. now intros -> ->. Qed.

Lemma readPlain_set_eq (k : string) (v : Value) (o : Rec Value) :
  readPlain k (Obj.set k v o) = v.
Proof. unfold readPlain. now rewrite get_set_eq. Qed.

Lemma readPlain_set_neq (k k' : string) (v : Value) (o : Rec Value) :
  k <> k' -> readPlain k' (Obj.set k v o) = readPlain k' o.
Proof. intros Hne. unfold readPlain. now rewrite get_set_neq. Qed.

Lemma keys_set_in (V : Type) (k : string) (v : V) (o : Rec V) :
  In k (Obj.keys o) -> Obj.keys (Obj.set k v o) = Obj.keys o.
Proof.
  induction o as [|[k0 w] rest IH]; simpl; intros Hin.
  - contradiction.
  - destruct (String.eqb k0 k) eqn:E; simpl; auto.
    f_equal. apply IH. destruct Hin as [->|]; auto.
    rewrite String.eqb_refl in E. discriminate.
Qed.

Lemma set_fresh (V : Type) (k : string) (v : V) (o : Rec V) :
  ~ In k (Obj.keys o) -> Obj.set k v o = o ++ [(k, v)].
Proof.
  induction o as [|[k0 w] rest IH]; simpl; intros Hnin; auto.
  destruct (String.eqb k0 k) eqn:E.
  - apply String.eqb_eq in E. subst. tauto.
  - f_equal. apply IH. tauto.
Qed.

Lemma get_none_keys (V : Type) (k : string) (o : Rec V) :
  Obj.get k o = None <-> ~ In k (Obj.keys o).
Proof.
  induction o as [|[k0 w] rest IH]; simpl.
  - tauto.
  - destruct (String.eqb k0 k) eqn:E.
    + apply String.eqb_eq in E. subst. split; [discriminate | tauto].
    + apply String.eqb_neq in E. rewrite IH. tauto.
Qed.

Lemma fold_set_app (V : Type) (es : list (string * V)) (o : Rec V) :
  NoDup (Obj.keys o ++ Obj.keys es) ->
  fold_left (fun o kv => Obj.set (fst kv) (snd kv) o) es o = o ++ es.
Proof.
  revert o. induction es as [|[k v] rest IH]; intros o Hnd; simpl.
  - now rewrite app_nil_r.
  - simpl in Hnd. rewrite set_fresh.
    + rewrite IH.
      * now rewrite <- app_assoc.
      * unfold Obj.keys in *. rewrite map_app. simpl. rewrite <- app_assoc. exact Hnd.
    + apply NoDup_remove_2 in Hnd. intro Hin. apply Hnd. apply in_or_app. now left.
Qed.

(** On the entries of an object, [Object.fromEntries] builds that object. *)
Lemma fromEntries_entries (V : Type) (es : list (string * V)) :
  NoDup (Obj.keys es) -> Obj.fromEntries es = es.
Proof.
  intros Hnd. unfold Obj.fromEntries. now rewrite fold_set_app.
Qed.

Lemma set_not_nil (V : Type) (k : string) (v : V) (o : Rec V) : Obj.set k v o <> [].
Proof.
  destruct o as [|[k0 w] rest]; simpl; [discriminate|].
  destruct (String.eqb k0 k); discriminate.
Qed.

Lemma fold_set_not_nil (V : Type) (es : list (string * V)) (o : Rec V) :
  o <> [] -> fold_left (fun o kv => Obj.set (fst kv) (snd kv) o) es o <> [].
Proof.
  revert o. induction es as [|kv rest IH]; simpl; intros o Ho; auto.
  apply IH. apply set_not_nil.
Qed.

Lemma fromEntries_nil_iff (V : Type) (es : list (string * V)) :
  Obj.fromEntries es = [] <-> es = [].
Proof.
  split.
  - destruct es as [|kv rest]; auto. unfold Obj.fromEntries. simpl. intros H.
    exfalso. revert H. apply fold_set_not_nil. discriminate.
  - intros ->. reflexivity.
Qed.

(** ** The traversal's equations, as the source writes them *)

Lemma unwrapType_type (t : GType) :
  unwrapType (ATType t) = (ATType (fst (unwrapGraphQLDef t)), snd (unwrapGraphQLDef t)).
Proof.
  unfold unwrapType. destruct t; simpl; try reflexivity;
    destruct (unwrapGraphQLDef t); reflexivity.
Qed.

Lemma unwrapType_field (f : InputField GType) :
  unwrapType (ATField f) = unwrapType (ATType (fieldType f)).
Proof. reflexivity. Qed.

(** The terminal type that [unwrapType] returns is a named type. *)
Lemma unwrapGraphQLDef_named (t : GType) :
  isWrappingType (fst (unwrapGraphQLDef t)) = false.
Proof.
  induction t; simpl; auto; destruct (unwrapGraphQLDef t); exact IHt.
Qed.

Section TraversalEquations.

Variable T : Type.
Variable reducer : Reducer T.

Lemma reduceOverTerminal_eq (t : GType) (ctx : NodeCtx T) :
  reduceOverTerminal reducer t ctx
  = reduceOverWrappedType reducer (fst (unwrapType (ATType t))) ctx.
Proof.
  induction t; rewrite unwrapType_type in *; simpl in *.
  - rewrite IHt. destruct (unwrapGraphQLDef t); reflexivity.
  - rewrite IHt. destruct (unwrapGraphQLDef t); reflexivity.
  - unfold reduceOverWrappedType. reflexivity.
  - unfold reduceOverWrappedType, reduceOverObjectType. reflexivity.
Qed.

(** [reduceOverArgType] on a field of an input object type. *)
Lemma reduceFieldWith_eq (init : option T) (kf : string * InputField GType) :
  reduceFieldWith reducer (reduceOverTerminal reducer) init kf
  = (fst kf,
     reduceOverArgType reducer (ATField (snd kf))
       {| key := Some (fst kf); wrapping := []; initialNodeValue := init |}).
Proof.
  unfold reduceFieldWith, reduceOverArgType. f_equal.
  rewrite reduceOverTerminal_eq. rewrite unwrapType_field.
  destruct (unwrapType (ATType (fieldType (snd kf)))); reflexivity.
Qed.

(** [reduceOverObjectType], as in the source: every field is reduced by
    [reduceOverArgType] under a fresh context, the defined results are kept
    and the reducer is called on them. *)
Lemma reduceOverObjectType_eq (argType : GType) (ctx : NodeCtx T) :
  reduceOverObjectType reducer argType ctx
  = reducer
      (CVRecord
         (Obj.fromEntries
            (filter (@isDefinedEntry T)
               (map (fun kf : string * InputField GType =>
                       (fst kf,
                        reduceOverArgType reducer (ATField (snd kf))
                          {| key := Some (fst kf); wrapping := [];
                             initialNodeValue := initialNodeValue ctx |}))
                    (Obj.entries (getFields argType))))))
      (NArgType (ATType argType)) ctx.
Proof.
  unfold reduceOverObjectType. do 4 f_equal.
  apply map_ext. intros kf. apply reduceFieldWith_eq.
Qed.

(** The three descent points: a defined reducer result is returned at
    once, [undefined] moves on to the next layer. *)
Lemma reduceOverArgDef_halts (argDef : ArgDef) (ctx : NodeCtx T) (v : T) :
  reducer (CVInitial (initialNodeValue ctx)) (NArgDef argDef) ctx = Some v ->
  reduceOverArgDef reducer argDef ctx = Some v.
Proof. unfold reduceOverArgDef. intros ->. reflexivity. Qed.

Lemma reduceOverArgDef_descends (argDef : ArgDef) (ctx : NodeCtx T) :
  reducer (CVInitial (initialNodeValue ctx)) (NArgDef argDef) ctx = None ->
  reduceOverArgDef reducer argDef ctx
  = reduceOverArgType reducer (ATType (argType argDef)) ctx.
Proof. unfold reduceOverArgDef. intros ->. reflexivity. Qed.

Lemma reduceOverArgType_halts (argType : ArgType) (ctx : NodeCtx T) (v : T) :
  reducer (CVInitial (initialNodeValue ctx)) (NArgType argType)
          (withWrapping ctx (snd (unwrapType argType))) = Some v ->
  reduceOverArgType reducer argType ctx = Some v.
Proof.
  unfold reduceOverArgType. destruct (unwrapType argType). simpl. intros ->. reflexivity.
Qed.

Lemma reduceOverArgType_descends (argType : ArgType) (ctx : NodeCtx T) :
  reducer (CVInitial (initialNodeValue ctx)) (NArgType argType)
          (withWrapping ctx (snd (unwrapType argType))) = None ->
  reduceOverArgType reducer argType ctx
  = reduceOverWrappedType reducer (fst (unwrapType argType))
      (withWrapping ctx (snd (unwrapType argType))).
Proof.
  unfold reduceOverArgType. destruct (unwrapType argType). simpl. intros ->. reflexivity.
Qed.

Lemma reduceOverWrappedType_halts (argType : ArgType) (ctx : NodeCtx T) (v : T) :
  reducer (CVInitial (initialNodeValue ctx)) (NArgType argType) ctx = Some v ->
  reduceOverWrappedType reducer argType ctx = Some v.
Proof. unfold reduceOverWrappedType. intros ->. reflexivity. Qed.

Lemma reduceOverWrappedType_descends (argType : ArgType) (ctx : NodeCtx T) :
  reducer (CVInitial (initialNodeValue ctx)) (NArgType argType) ctx = None ->
  reduceOverWrappedType reducer argType ctx
  = match argType with
    | ATType (GInputObject _ _ _ as t) => reduceOverObjectType reducer t ctx
    | _ => None
    end.
Proof. unfold reduceOverWrappedType. intros ->. reflexivity. Qed.

End TraversalEquations.

(** ** The continue signal of the reducer *)

(** With the sentinel [0], a visitor that answers [0] on the field definition
    is not asked about the field's type, which it would answer with [1]. *)
Example zeroThenOne_halts :
  let ctx := {| key := Some "x"; wrapping := []; initialNodeValue := Some 0 |} in
  reduceOverArgDef zeroThenOne intField ctx = Some 0
  /\ reduceOverArgType zeroThenOne (ATType (argType intField)) ctx = Some 1.
Proof. split; reflexivity. Qed.

(** C2, as stated, fails: with the sentinel [0], the visitor result [0] halts
    the descent instead of continuing it. *)
Lemma sentinel_does_not_signal : ~ SentinelSignals nat.
Proof.
  intros H.
  destruct (H zeroThenOne intField
              {| key := Some "x"; wrapping := []; initialNodeValue := Some 0 |})
    as [Hcontinue _].
  specialize (Hcontinue eq_refl). discriminate Hcontinue.
Qed.

(** C2, the other direction: with the sentinel [0], the visitor result
    [undefined] differs from the sentinel and yet does not halt. *)
Lemma undefined_continues_under_any_sentinel : ~ SentinelSignals nat.
Proof.
  intros H.
  destruct (H undefinedThenOne intField
              {| key := Some "x"; wrapping := []; initialNodeValue := Some 0 |})
    as [_ Hhalt].
  assert (Hne : @None nat <> Some 0) by discriminate.
  specialize (Hhalt Hne). discriminate Hhalt.
Qed.

(** C2 (amended): for every visitor, node and context, hence for every
    sentinel the caller passed as [initialNodeValue], [undefined] is the only
    visitor result that continues the descent; any other result, the
    caller's own sentinel when it is not [undefined] included, halts the
    descent at that node and is the node's result.  This holds at the three
    descent points: the field definition, the possibly wrapped type and the
    terminal named type. *)
Theorem undefined_is_the_only_continue_signal (T : Type) (reducer : Reducer T) :
  (forall (argDef : ArgDef) (ctx : NodeCtx T),
      match reducer (CVInitial (initialNodeValue ctx)) (NArgDef argDef) ctx with
      | Some v => reduceOverArgDef reducer argDef ctx = Some v
      | None => reduceOverArgDef reducer argDef ctx
                = reduceOverArgType reducer (ATType (argType argDef)) ctx
      end)
  /\ (forall (argType : ArgType) (ctx : NodeCtx T),
         let ctx' := withWrapping ctx (snd (unwrapType argType)) in
         match reducer (CVInitial (initialNodeValue ctx)) (NArgType argType) ctx' with
         | Some v => reduceOverArgType reducer argType ctx = Some v
         | None => reduceOverArgType reducer argType ctx
                   = reduceOverWrappedType reducer (fst (unwrapType argType)) ctx'
         end)
  /\ (forall (argType : ArgType) (ctx : NodeCtx T),
         match reducer (CVInitial (initialNodeValue ctx)) (NArgType argType) ctx with
         | Some v => reduceOverWrappedType reducer argType ctx = Some v
         | None => reduceOverWrappedType reducer argType ctx
                   = if isInputObjectType argType
                     then match argType with
                          | ATType t => reduceOverObjectType reducer t ctx
                          | ATField _ => None
                          end
                     else None
         end).
Proof.
  repeat split.
  - intros argDef ctx.
    destruct (reducer _ (NArgDef argDef) ctx) eqn:E.
    + now apply reduceOverArgDef_halts.
    + now apply reduceOverArgDef_descends.
  - intros argType ctx ctx'. subst ctx'.
    destruct (reducer _ (NArgType argType) _) eqn:E.
    + now apply reduceOverArgType_halts.
    + now apply reduceOverArgType_descends.
  - intros argType ctx.
    destruct (reducer _ (NArgType argType) ctx) eqn:E.
    + now apply reduceOverWrappedType_halts.
    + rewrite reduceOverWrappedType_descends by exact E.
      destruct argType as [[]|]; reflexivity.
Qed.

(** ** The compiler's reducer *)

Lemma visit_initial (this : InputTransformer) (v : option TVal) (node : Node)
    (ctx : NodeCtx TVal) :
  visit this (CVInitial v) node ctx
  = if truthyAny (getExtensions this node)
    then Some (TFun (if includes WList (wrapping ctx)
                     then makeListTransform this (getExtensions this node)
                     else makeTransform this (getExtensions this node)))
    else None.
Proof.
  unfold visit. simpl.
  destruct (truthyAny (getExtensions this node)); simpl; auto.
  destruct (includes WList (wrapping ctx)); reflexivity.
Qed.

Lemma visit_no_children (this : InputTransformer) (v : option TVal) (node : Node)
    (ctx : NodeCtx TVal) :
  visit this (CVRecord []) node ctx = visit this (CVInitial v) node ctx.
Proof. reflexivity. Qed.

Lemma visit_children (this : InputTransformer) (r : Rec (option TVal)) (node : Node)
    (ctx : NodeCtx TVal) :
  r <> [] -> visit this (CVRecord r) node ctx = Some (TFun (composeKeyTransformers r)).
Proof. destruct r; [congruence | reflexivity]. Qed.

Lemma getExtensions_argDef (this : InputTransformer) (d : ArgDef) :
  getExtensions this (NArgDef d)
  = AValue (definitionAnnotation (extensionName this) (argExtensions d)).
Proof. unfold getExtensions, hasExtensions. simpl. destruct (argExtensions d); reflexivity. Qed.

Lemma getExtensions_field (this : InputTransformer) (f : InputField GType) :
  getExtensions this (NArgType (ATField f))
  = AValue (annotation (extensionName this) (fieldExtensions f)).
Proof. unfold getExtensions, hasExtensions. simpl. destruct (fieldExtensions f); reflexivity. Qed.

Lemma getExtensions_type (this : InputTransformer) (t : GType) :
  getExtensions this (NArgType (ATType t))
  = AValue (match t with
            | GScalar _ e | GInputObject _ e _ => annotation (extensionName this) e
            | _ => VUndefined
            end).
Proof.
  unfold getExtensions, hasExtensions.
  destruct t as [t'|t'|n e|n e fs]; simpl; try reflexivity; destruct e; reflexivity.
Qed.

(** ** Where the list wrapper sits *)

(** The test tree of the repository declares
    [t.nonNull.list.nonNull.expectInput("expectedList", ...)]: the wrapper
    kinds are non-null, list, non-null, so the list kind is neither first nor
    last, and the field's transform is the element-mapping one. *)
Example expectedList_is_list_wrapped :
  snd (unwrapType (ATField expectedList)) = [WNonNull; WList; WNonNull]
  /\ reduceOverArgType (visit expectPlugin) (ATField expectedList)
       {| key := Some "expectedList"; wrapping := []; initialNodeValue := Some TNull |}
     = Some (TFun (makeListTransform expectPlugin (configAt expectPlugin (ATField expectedList)))).
Proof. split; reflexivity. Qed.

(** The repository's test, end to end. *)
Example getOutput_transformed :
  invoke (buildResolverMiddleware expectPlugin getOutputArgs) getOutputInput
  = Some (Ok getOutputExpected).
Proof. reflexivity. Qed.

(** The test [includes] does not depend on the order in which the wrapper
    kinds were accumulated. *)
Lemma includes_rev (k : NexusWrapKind) (w : list NexusWrapKind) :
  includes k (rev w) = includes k w.
Proof.
  unfold includes. induction w as [|a w IH]; simpl; auto.
  rewrite existsb_app, IH. simpl. rewrite orb_false_r. apply orb_comm.
Qed.

(** C4, as stated, fails: a field wrapped as non-null, list, non-null has the
    non-null kind outermost, from whichever end the sequence is read, and its
    transform is list-wrapped all the same. *)
Lemma list_need_not_be_outermost :
  ~ ListAtOutermost firstKind /\ ~ ListAtOutermost lastKind.
Proof.
  split; intros H;
    specialize (H expectPlugin expectedList
                  {| key := Some "expectedList"; wrapping := [];
                     initialNodeValue := Some TNull |} eq_refl);
    destruct H as [Hwrapped _];
    specialize (Hwrapped eq_refl); discriminate Hwrapped.
Qed.

(** The transform a type position compiles to when the position itself
    carries the configuration. *)
Lemma reduceOverArgType_config_here
    (this : InputTransformer) (argType : ArgType) (ctx : NodeCtx TVal) :
  truthyAny (getExtensions this (NArgType argType)) = true ->
  reduceOverArgType (visit this) argType ctx
  = Some (TFun (if includes WList (snd (unwrapType argType))
                then makeListTransform this (getExtensions this (NArgType argType))
                else makeTransform this (getExtensions this (NArgType argType)))).
Proof.
  intros E. apply reduceOverArgType_halts. rewrite visit_initial, E. reflexivity.
Qed.

(** The transform a type position compiles to when its terminal named type
    carries the configuration and the position itself does not. *)
Lemma reduceOverArgType_config_terminal
    (this : InputTransformer) (argType : ArgType) (ctx : NodeCtx TVal) :
  truthyAny (getExtensions this (NArgType argType)) = false ->
  truthyAny (getExtensions this (NArgType (fst (unwrapType argType)))) = true ->
  reduceOverArgType (visit this) argType ctx
  = Some (TFun (if includes WList (snd (unwrapType argType))
                then makeListTransform this
                       (getExtensions this (NArgType (fst (unwrapType argType))))
                else makeTransform this
                       (getExtensions this (NArgType (fst (unwrapType argType)))))).
Proof.
  intros E Hc.
  rewrite reduceOverArgType_descends by (rewrite visit_initial, E; reflexivity).
  apply reduceOverWrappedType_halts. rewrite visit_initial, Hc. reflexivity.
Qed.

(** C4 (amended): for every type position that resolves to a configuration
    under the recognized key (found on the position itself or on its terminal
    named type), the compiled transform is the element-mapping transform if
    the wrapper kinds accumulated while unwrapping it include the list kind
    at any depth, and the plain transform if they do not. *)
Theorem list_wrapped_iff_wrapping_includes_list
    (this : InputTransformer) (argType : ArgType) (ctx : NodeCtx TVal) :
  truthyAny (configAt this argType) = true ->
  reduceOverArgType (visit this) argType ctx
  = Some (TFun (if includes WList (snd (unwrapType argType))
                then makeListTransform this (configAt this argType)
                else makeTransform this (configAt this argType))).
Proof.
  unfold configAt.
  destruct (truthyAny (getExtensions this (NArgType argType))) eqn:E; intros Hc.
  - now apply reduceOverArgType_config_here.
  - now apply reduceOverArgType_config_terminal.
Qed.

Lemma list_wrapped_iff_wrapping_includes_list_witness :
  let config := configAt expectPlugin (ATField expectedList) in
  truthyAny config = true
  /\ reduceOverArgType (visit expectPlugin) (ATField expectedList)
       {| key := Some "expectedList"; wrapping := []; initialNodeValue := Some TNull |}
     = Some (TFun (if includes WList (snd (unwrapType (ATField expectedList)))
                   then makeListTransform expectPlugin config
                   else makeTransform expectPlugin config)).
Proof.
  intros config. split; [reflexivity|].
  apply (list_wrapped_iff_wrapping_includes_list expectPlugin (ATField expectedList)).
  reflexivity.
Defined.

(** ** The element-mapping transform *)

Lemma mapM_ok_iff (A B : Type) (f : A -> Result B) (xs : list A) (ys : list B) :
  mapM f xs = Ok ys <-> Forall2 (fun x y => f x = Ok y) xs ys.
Proof.
  revert ys. induction xs as [|x rest IH]; intros ys; simpl.
  - split.
    + intros H. injection H as <-. constructor.
    + intros H. inversion H. reflexivity.
  - split.
    + destruct (f x) as [y|e] eqn:Ex; simpl; [|discriminate].
      destruct (mapM f rest) as [ys'|e] eqn:Er; simpl; [|discriminate].
      intros H. injection H as <-. constructor; auto. now apply IH.
    + intros H. inversion H as [|x0 y xs0 ys' Hx Hrest]; subst.
      rewrite Hx. simpl. apply IH in Hrest. rewrite Hrest. reflexivity.
Qed.

(** The first element on which the function throws ends the loop with that
    exception. *)
Lemma mapM_throw (A B : Type) (f : A -> Result B) (pre : list A) (x : A)
    (post : list A) (ys : list B) (e : Exn) :
  mapM f pre = Ok ys -> f x = Throw e -> mapM f (pre ++ x :: post) = Throw e.
Proof.
  revert ys. induction pre as [|p pre IH]; intros ys Hpre Hx; simpl in *.
  - rewrite Hx. reflexivity.
  - destruct (f p) as [y|e']; simpl in *; [|discriminate].
    destruct (mapM f pre) as [ys'|e'] eqn:E; simpl in *; [|discriminate].
    rewrite (IH ys' eq_refl Hx). reflexivity.
Qed.

(** A list-wrapped transform throws what the element transform throws on the
    first element it rejects. *)
Lemma list_transform_throws (this : InputTransformer) (config : Any)
    (pre : list Value) (x : Value) (post : list Value) (ys : list Value) (e : Exn) :
  mapM (fun input => transform this input config) pre = Ok ys ->
  transform this x config = Throw e ->
  makeListTransform this config (VArr (pre ++ x :: post)) = Throw e.
Proof.
  intros Hpre Hx. unfold makeListTransform, makeTransform.
  rewrite (@mapM_throw _ _ (fun input => transform this input config) pre x post ys e Hpre Hx).
  reflexivity.
Qed.

(** The specification's examples: [[1,2,3]] becomes [[2,4,6]], and the empty
    sequence stays empty. *)
Example xs_doubled :
  invoke (buildResolverMiddleware doubling xsArgs)
        (VObj [("xs", VArr [VNum 1; VNum 2; VNum 3])])
  = Some (Ok (VObj [("xs", VArr [VNum 2; VNum 4; VNum 6])]))
  /\ invoke (buildResolverMiddleware doubling xsArgs) (VObj [("xs", VArr [])])
     = Some (Ok (VObj [("xs", VArr [])])).
Proof. split; reflexivity. Qed.

(** An absent [xs], or a [null] one, makes the compiled function throw. *)
Example xs_absent_throws :
  invoke (buildResolverMiddleware doubling xsArgs) (VObj []) = Some (Throw TypeError)
  /\ invoke (buildResolverMiddleware doubling xsArgs) (VObj [("xs", VNull)])
     = Some (Throw TypeError).
Proof. split; reflexivity. Qed.

(** C3, as stated, fails: an absent input sequence is not passed through, the
    list-wrapped transform throws on it. *)
Lemma absent_sequence_throws : ~ EmptyOrAbsentPropagates.
Proof.
  intros H.
  specialize (H doubling (AValue (VObj [])) VUndefined (or_intror (or_introl eq_refl))).
  discriminate H.
Qed.

(** C3 (amended): a list-wrapped transform applies the element transform to
    every element of an input sequence independently, from left to right
    (the output sequence is exactly the sequence of the elements' results),
    and the empty sequence yields the empty sequence.  Any input that is not
    a sequence, an absent ([undefined]) or [null] one included, is not passed
    through: the call throws a [TypeError]. *)
Theorem list_transform_maps_every_element (this : InputTransformer) (config : Any) :
  (forall items items' : list Value,
      makeListTransform this config (VArr items) = Ok (VArr items')
      <-> Forall2 (fun x y => transform this x config = Ok y) items items')
  /\ makeListTransform this config (VArr []) = Ok (VArr [])
  /\ (forall input : Value,
         match input with
         | VArr _ => True
         | _ => makeListTransform this config input = Throw TypeError
         end).
Proof.
  repeat split.
  - unfold makeListTransform, makeTransform.
    destruct (mapM (fun input => transform this input config) items) as [ys|e] eqn:E;
      simpl; [|discriminate].
    intros H. injection H as <-. now apply mapM_ok_iff.
  - intros H. apply mapM_ok_iff in H.
    unfold makeListTransform, makeTransform. rewrite H. reflexivity.
  - intros input. destruct input; simpl; auto.
Qed.

(** ** The composed function *)

Lemma reduceM_app (A B : Type) (step : B -> A -> Result B) (xs ys : list A) (init : B) :
  reduceM step (xs ++ ys) init = carry <- reduceM step xs init ;; reduceM step ys carry.
Proof.
  revert init. induction xs as [|x rest IH]; intros init; simpl; auto.
  destruct (step init x); simpl; auto.
Qed.

Lemma compose_app (pre post : list KeyTransformer) (args : Value) :
  composeKeyTransformers (pre ++ post) args
  = carry <- composeKeyTransformers pre args ;; composeKeyTransformers post carry.
Proof. apply reduceM_app. Qed.

Lemma compose_cons (kt : KeyTransformer) (rest : list KeyTransformer) (args : Value) :
  composeKeyTransformers (kt :: rest) args
  = carry <- composeStep args kt ;; composeKeyTransformers rest carry.
Proof. reflexivity. Qed.

Lemma composeStep_bag (bag : Rec Value) (kt : KeyTransformer) :
  composeStep (VObj bag) kt
  = v' <- call (snd kt) (readPlain (fst kt) bag) ;;
    Ok (VObj (Obj.set (fst kt) v' bag)).
Proof. reflexivity. Qed.

(** On a bag, key transformers under distinct keys act independently: when
    each returns on the value the input bag holds for its key, the composed
    function returns a bag that maps every such key to that result and
    agrees with the input bag everywhere else. *)
Lemma compose_independent (kts : list KeyTransformer) (bag : Rec Value) :
  NoDup (map fst kts) ->
  Forall (returnsOn bag) kts ->
  exists out,
    composeKeyTransformers kts (VObj bag) = Ok (VObj out)
    /\ (forall kt r, In kt kts ->
                     call (snd kt) (readPlain (fst kt) bag) = Ok r ->
                     Obj.get (fst kt) out = Some r)
    /\ (forall y, ~ In y (map fst kts) -> Obj.get y out = Obj.get y bag).
Proof.
  revert bag. induction kts as [|[k f] rest IH]; intros bag Hnd Hall.
  - exists bag. repeat split; auto. intros kt r [].
  - inversion Hnd as [|k0 l Hk Hnd']; subst.
    inversion Hall as [|kt0 l [r Hr] Hrest]; subst. simpl in Hr.
    destruct (IH (Obj.set k r bag) Hnd') as (out & Hrun & Hin & Hout).
    { rewrite Forall_forall in *. intros kt Hkt. destruct (Hrest kt Hkt) as [r' Hr'].
      exists r'. rewrite readPlain_set_neq; auto.
      intros ->. apply Hk. now apply in_map. }
    exists out. split; [|split].
    + rewrite compose_cons, composeStep_bag. simpl. rewrite Hr. simpl. exact Hrun.
    + intros kt r0 [<-|Hkt] Hcall; simpl in *.
      * rewrite (Hout k Hk), get_set_eq. congruence.
      * apply Hin; auto. rewrite readPlain_set_neq; auto.
        intros ->. apply Hk. now apply in_map.
    + intros y Hy. simpl in Hy. rewrite Hout by tauto. apply get_set_neq. tauto.
Qed.

(** C6: when the transform of one key throws, having been reached after the
    keys before it were processed, the composed function throws that very
    exception.  Whatever key transformers follow in the left-to-right order
    have no part in the outcome, and no bag is returned. *)
Theorem throw_preempts_return
    (pre post : list KeyTransformer) (k : string) (f : option TVal)
    (args carry v : Value) (e : Exn) :
  composeKeyTransformers pre args = Ok carry ->
  getProp carry k = Ok v ->
  call f v = Throw e ->
  composeKeyTransformers (pre ++ (k, f) :: post) args = Throw e.
Proof.
  intros Hpre Hget Hcall.
  rewrite compose_app, Hpre. simpl.
  rewrite compose_cons. unfold composeStep. simpl.
  rewrite Hget. simpl. rewrite Hcall. reflexivity.
Qed.

Lemma throw_preempts_return_witness :
  let bag := VObj [("a", VNum 1); ("b", VNum 2); ("c", VNum 3)] in
  let carry := VObj [("a", VStr "A"); ("b", VNum 2); ("c", VNum 3)] in
  composeKeyTransformers [("a", Some (constantly (VStr "A")))] bag = Ok carry
  /\ getProp carry "b" = Ok (VNum 2)
  /\ call (Some throwing) (VNum 2) = Throw (Thrown (VNum 2))
  /\ composeKeyTransformers
       ([("a", Some (constantly (VStr "A")))] ++ ("b", Some throwing)
          :: [("c", Some (constantly (VStr "C")))]) bag
     = Throw (Thrown (VNum 2)).
Proof.
  intros bag carry.
  split; [reflexivity | split; [reflexivity | split; [reflexivity|]]].
  apply (@throw_preempts_return
           [("a", Some (constantly (VStr "A")))] [("c", Some (constantly (VStr "C")))]
           "b" (Some throwing) bag carry (VNum 2) (Thrown (VNum 2)));
    reflexivity.
Defined.

(** X19: a compiled function whose key transformers hold, under distinct
    keys, the plain transform with configuration [c] for the key [k], where
    [k] is not the name of a member of [Object.prototype]: on a bag without
    [k] whose other transforms return, it returns a bag that does contain
    [k], mapped to the transform's result on [undefined] and [c]. *)
Theorem absent_key_is_materialized
    (this : InputTransformer) (c : Any) (kts : list KeyTransformer) (k : string)
    (bag : Rec Value) :
  NoDup (map fst kts) ->
  In (k, Some (TFun (makeTransform this c))) kts ->
  Obj.get k bag = None ->
  inherited k = false ->
  Forall (returnsOn bag) kts ->
  exists out v',
    composeKeyTransformers kts (VObj bag) = Ok (VObj out)
    /\ transform this VUndefined c = Ok v'
    /\ Obj.get k out = Some v'
    /\ In k (Obj.keys out).
Proof.
  intros Hnd Hin Habsent Hown Hall.
  destruct (compose_independent Hnd Hall) as (out & Hrun & Hkeys & _).
  rewrite Forall_forall in Hall. destruct (Hall _ Hin) as [v' Hv'].
  simpl in Hv'. rewrite (@readPlain_absent k bag Habsent Hown) in Hv'.
  assert (Hget : Obj.get k out = Some v').
  { apply (Hkeys _ v' Hin). simpl. now rewrite (@readPlain_absent k bag Habsent Hown). }
  exists out, v'. repeat split; auto.
  destruct (in_dec string_dec k (Obj.keys out)) as [|Hnin]; auto.
  apply get_none_keys in Hnin. congruence.
Qed.

(** C10, at a failing input: the key [constructor], absent from the bag.
    The read [carry[key]] goes up the prototype chain of the bag and finds
    the member of [Object.prototype] of that name, so the transform is not
    handed [undefined]: the bag returned maps the key to the transform's
    result on a built-in function. *)
Theorem absent_inherited_key_is_not_undefined :
  let c := AValue (VObj []) in
  let bag := [("a", VStr "keep")] in
  Obj.get "constructor" bag = None
  /\ buildResolverMiddleware telling constructorArgs
     = Some (TFun (composeKeyTransformers
                     [("constructor", Some (TFun (makeTransform telling c)))]))
  /\ transform telling VUndefined c = Ok (VStr "undefined")
  /\ getProp (VObj bag) "constructor" = Ok (VBuiltin "constructor")
  /\ invoke (buildResolverMiddleware telling constructorArgs) (VObj bag)
     = Some (Ok (VObj [("a", VStr "keep"); ("constructor", VStr "other")])).
Proof. repeat split. Qed.

(** ** Which trees compile to a function *)

Section Compile.

Variable this : InputTransformer.
Local Abbreviation name := (extensionName this).

Lemma reduceOverArgType_type (t : GType) (ctx : NodeCtx TVal) :
  reduceOverArgType (visit this) (ATType t) ctx
  = orElse (visit this (CVInitial (initialNodeValue ctx)) (NArgType (ATType t))
              (withWrapping ctx (snd (unwrapType (ATType t)))))
           (reduceOverTerminal (visit this) t
              (withWrapping ctx (snd (unwrapType (ATType t))))).
Proof.
  rewrite reduceOverTerminal_eq. unfold reduceOverArgType.
  destruct (unwrapType (ATType t)); reflexivity.
Qed.

Lemma visit_initial_decides (v : option TVal) (node : Node) (ctx : NodeCtx TVal) :
  decides (truthyAny (getExtensions this node)) (visit this (CVInitial v) node ctx).
Proof.
  rewrite visit_initial. unfold decides.
  destruct (truthyAny (getExtensions this node)); eauto.
Qed.

Lemma orElse_decides (a b : bool) (r r' : option TVal) :
  decides a r -> decides b r' -> decides (a || b) (orElse r r').
Proof.
  unfold decides. destruct a; simpl.
  - intros [f ->] _. simpl. eauto.
  - intros -> H. exact H.
Qed.

(** The defined results of a list of children are none exactly when no
    child is annotated. *)
Lemma children_decide (A : Type) (annotated : A -> bool)
    (reduce : A -> string * option TVal) (xs : list A) :
  Forall (fun x => decides (annotated x) (snd (reduce x))) xs ->
  if existsb annotated xs
  then filter (@isDefinedEntry TVal) (map reduce xs) <> []
  else filter (@isDefinedEntry TVal) (map reduce xs) = [].
Proof.
  induction 1 as [|x rest Hx Hrest IH]; simpl; auto.
  unfold decides in Hx. destruct (annotated x); simpl.
  - destruct Hx as [f Hf].
    assert (Hdef : isDefinedEntry (reduce x) = true)
      by (unfold isDefinedEntry; now rewrite Hf).
    rewrite Hdef. discriminate.
  - assert (Hdef : isDefinedEntry (reduce x) = false)
      by (unfold isDefinedEntry; now rewrite Hx).
    rewrite Hdef. exact IH.
Qed.

Lemma record_decides (annotated here : bool) (children : list KeyTransformer)
    (node : Node) (ctx : NodeCtx TVal) :
  (if annotated then children <> [] else children = []) ->
  decides here (visit this (CVInitial (initialNodeValue ctx)) node ctx) ->
  decides (here || annotated)
          (visit this (CVRecord (Obj.fromEntries children)) node ctx).
Proof.
  intros Hchildren Hhere. destruct annotated.
  - rewrite visit_children by (now rewrite fromEntries_nil_iff).
    rewrite orb_true_r. simpl. eauto.
  - subst children. rewrite orb_false_r. exact Hhere.
Qed.

Lemma reduceOverTerminal_decides (t : GType) :
  forall ctx : NodeCtx TVal,
    decides (typeAnnotated name t) (reduceOverTerminal (visit this) t ctx).
Proof.
  induction t as [t IH|t IH|n e|n e fields IH] using GType_fields_ind; intros ctx;
    simpl.
  - apply IH.
  - apply IH.
  - rewrite <- (orb_false_r (annotatedAt name e)).
    apply orElse_decides; [|reflexivity].
    generalize (visit_initial_decides (initialNodeValue ctx)
                  (NArgType (ATType (GScalar n e))) ctx).
    now rewrite getExtensions_type.
  - assert (Hhere : decides (annotatedAt name e)
                      (visit this (CVInitial (initialNodeValue ctx))
                         (NArgType (ATType (GInputObject n e fields))) ctx)).
    { generalize (visit_initial_decides (initialNodeValue ctx)
                    (NArgType (ATType (GInputObject n e fields))) ctx).
      now rewrite getExtensions_type. }
    rewrite <- (orb_diag (annotatedAt name e)), <- orb_assoc.
    apply orElse_decides; [exact Hhere|].
    apply record_decides; [|exact Hhere].
    apply children_decide.
    rewrite Forall_forall in *. intros kf Hkf.
    unfold reduceFieldWith, fieldAnnotatedWith. simpl snd at 1.
    apply orElse_decides; [|apply IH; exact Hkf].
    generalize (visit_initial_decides (Some TNull) (NArgType (ATField (snd kf)))
                  (withWrapping
                     {| key := Some (fst kf); wrapping := [];
                        initialNodeValue := initialNodeValue ctx |}
                     (snd (unwrapType (ATField (snd kf)))))).
    rewrite getExtensions_field. rewrite !visit_initial. auto.
Qed.

Lemma type_annotation_absorbed (t : GType) :
  truthy (match t with
          | GScalar _ e | GInputObject _ e _ => annotation name e
          | _ => VUndefined
          end)
  || typeAnnotated name t
  = typeAnnotated name t.
Proof.
  destruct t as [t'|t'|n e|n e fields]; simpl; auto; unfold annotatedAt;
    destruct (truthy (annotation name e)); reflexivity.
Qed.

Lemma reduceOverArgType_decides (t : GType) (ctx : NodeCtx TVal) :
  decides (typeAnnotated name t) (reduceOverArgType (visit this) (ATType t) ctx).
Proof.
  rewrite reduceOverArgType_type, <- type_annotation_absorbed.
  apply orElse_decides; [|apply reduceOverTerminal_decides].
  generalize (visit_initial_decides (initialNodeValue ctx) (NArgType (ATType t))
                (withWrapping ctx (snd (unwrapType (ATType t))))).
  now rewrite getExtensions_type.
Qed.

Lemma reduceOverArgDef_decides (d : ArgDef) (ctx : NodeCtx TVal) :
  decides (argDefAnnotated name d) (reduceOverArgDef (visit this) d ctx).
Proof.
  unfold reduceOverArgDef, argDefAnnotated.
  apply orElse_decides; [|apply reduceOverArgType_decides].
  generalize (visit_initial_decides (initialNodeValue ctx) (NArgDef d) ctx).
  now rewrite getExtensions_argDef.
Qed.

(** A tree with an annotated position compiles to the function that composes
    the key transformers discovered for its top-level fields, of which there
    is at least one; a tree without one compiles to [undefined], provided no
    top-level field is named [extensions] (the reducer probes the
    [extensions] property of the record of definitions itself). *)
Lemma compile_decides (argDefs : Rec ArgDef) :
  (treeAnnotated name argDefs = true ->
   discovered this argDefs <> []
   /\ buildResolverMiddleware this argDefs
      = Some (TFun (composeKeyTransformers (discovered this argDefs))))
  /\ (treeAnnotated name argDefs = false ->
      Obj.get "extensions" argDefs = None ->
      buildResolverMiddleware this argDefs = None).
Proof.
  unfold buildResolverMiddleware, reduceOverArgDefs, treeAnnotated, discovered.
  match goal with
  | |- context [Obj.fromEntries ?c] => set (children := c)
  end.
  assert (Hchildren :
            if existsb (fun kd => argDefAnnotated name (snd kd)) argDefs
            then children <> [] else children = []).
  { apply children_decide. rewrite Forall_forall. intros kd _.
    apply reduceOverArgDef_decides. }
  split; intros Hann; rewrite Hann in Hchildren.
  - assert (Hne : Obj.fromEntries children <> [])
      by (intros Hnil; apply -> fromEntries_nil_iff in Hnil; exact (Hchildren Hnil)).
    split; [exact Hne|]. now apply visit_children.
  - intros Hno. rewrite Hchildren. simpl.
    rewrite (visit_no_children this (Some TNull)), visit_initial.
    unfold getExtensions, hasExtensions. simpl. rewrite Hno. reflexivity.
Qed.

End Compile.

(** C5, at a failing input: a transformer keyed ["type"], compiled over a
    tree whose only argument is named [extensions] and in which no position
    carries an annotation, does not return [undefined].  At the root the
    reducer takes the argument definition stored under [extensions] for an
    extensions record, finds its [type] under the key, and returns a
    transform that is then applied to the whole bag. *)
Theorem unannotated_tree_compiles_to_function :
  treeAnnotated (extensionName typeKeyed) extensionsArgs = false
  /\ buildResolverMiddleware typeKeyed extensionsArgs
     = Some (TFun (makeTransform typeKeyed (AType GraphQLString)))
  /\ invoke (buildResolverMiddleware typeKeyed extensionsArgs)
           (VObj [("extensions", VStr "a")])
     = Some (Ok (VStr "REPLACED")).
Proof. repeat split. Qed.

(** ** A single annotated scalar position *)

Section SinglePosition.

Variable this : InputTransformer.
Local Abbreviation name := (extensionName this).

Lemma reduceOverArgDef_scalar (d : ArgDef) (ctx : NodeCtx TVal) :
  wrapping ctx = [] ->
  scalarField d = true ->
  truthy (firstAnnotation name d) = true ->
  reduceOverArgDef (visit this) d ctx
  = Some (TFun (makeTransform this (AValue (firstAnnotation name d)))).
Proof.
  unfold firstAnnotation, scalarField, reduceOverArgDef. intros Hw Hscalar Hc.
  rewrite visit_initial, getExtensions_argDef. fold name. simpl truthyAny.
  fold (definitionAnnotatedAt name (argExtensions d)).
  destruct (definitionAnnotatedAt name (argExtensions d)) eqn:Hhere.
  - rewrite Hw. reflexivity.
  - simpl.
    assert (Hnamed : getExtensions this (NArgType (fst (unwrapType (ATType (argType d)))))
                     = AValue (terminalAnnotation name (argType d))).
    { rewrite unwrapType_type. simpl fst. rewrite getExtensions_type.
      unfold terminalAnnotation.
      destruct (fst (unwrapGraphQLDef (argType d))); reflexivity. }
    assert (Hlist : includes WList (snd (unwrapType (ATType (argType d)))) = false).
    { rewrite unwrapType_type. simpl snd.
      destruct (fst (unwrapGraphQLDef (argType d))); try discriminate.
      now apply negb_true_iff in Hscalar. }
    destruct (truthyAny (getExtensions this (NArgType (ATType (argType d))))) eqn:E.
    + rewrite reduceOverArgType_config_here by exact E. rewrite Hlist.
      rewrite getExtensions_type in *. unfold terminalAnnotation.
      destruct (argType d) as [t'|t'|n e|n e fields]; simpl in *;
        try discriminate; reflexivity.
    + rewrite reduceOverArgType_config_terminal; auto.
      * now rewrite Hlist, Hnamed.
      * rewrite Hnamed. exact Hc.
Qed.

Lemma children_single (A : Type) (reduce : A -> string * option TVal)
    (annotated : A -> bool) (pre post : list A) (x : A) :
  (forall a, annotated a = false -> snd (reduce a) = None) ->
  Forall (fun a => annotated a = false) (pre ++ post) ->
  isDefinedEntry (reduce x) = true ->
  filter (@isDefinedEntry TVal) (map reduce (pre ++ x :: post)) = [reduce x].
Proof.
  intros Hnone Hall Hx.
  assert (Hdrop : forall l, Forall (fun a => annotated a = false) l ->
                            filter (@isDefinedEntry TVal) (map reduce l) = []).
  { induction 1 as [|a l Ha _ IH]; simpl; auto.
    unfold isDefinedEntry at 1. now rewrite (Hnone a Ha). }
  apply Forall_app in Hall. destruct Hall as [Hpre Hpost].
  rewrite map_app, filter_app. simpl. rewrite Hx.
  now rewrite (Hdrop pre Hpre), (Hdrop post Hpost).
Qed.

(** One annotated scalar field among unannotated ones compiles to the
    composition of a single key transformer. *)
Lemma compile_single (pre post : Rec ArgDef) (x : string) (d : ArgDef) :
  Forall (fun kd => argDefAnnotated name (snd kd) = false) (pre ++ post) ->
  scalarField d = true ->
  truthy (firstAnnotation name d) = true ->
  buildResolverMiddleware this (pre ++ (x, d) :: post)
  = Some (TFun (composeKeyTransformers
                  [(x, Some (TFun (makeTransform this
                                     (AValue (firstAnnotation name d)))))])).
Proof.
  intros Hall Hscalar Hc.
  unfold buildResolverMiddleware, reduceOverArgDefs, Obj.entries.
  rewrite (children_single _ (fun kd => argDefAnnotated name (snd kd))).
  - simpl. rewrite reduceOverArgDef_scalar; auto.
  - intros kd Hkd. simpl.
    generalize (reduceOverArgDef_decides this (snd kd)
                  {| key := Some (fst kd); wrapping := []; initialNodeValue := Some TNull |}).
    fold name. now rewrite Hkd.
  - exact Hall.
  - unfold isDefinedEntry. simpl. rewrite reduceOverArgDef_scalar; auto.
Qed.

Lemma compose_single (x : string) (f : InputTransform) (bag : Rec Value) :
  composeKeyTransformers [(x, Some (TFun f))] (VObj bag)
  = v' <- f (readPlain x bag) ;; Ok (VObj (Obj.set x v' bag)).
Proof.
  rewrite compose_cons, composeStep_bag. simpl.
  destruct (f (readPlain x bag)); reflexivity.
Qed.

End SinglePosition.

(** X18: a tree in which one top-level scalar field [x] reads as annotated,
    with configuration [c], and no other top-level field does, compiles to a
    function that, on a bag holding [v] under [x], returns the bag with [x]
    mapped to the transform's result on [v] and [c], every other key and the
    order of the keys unchanged. *)
Theorem single_scalar_position
    (this : InputTransformer) (pre post : Rec ArgDef) (x : string) (d : ArgDef)
    (c : Value) (bag : Rec Value) (v v' : Value) :
  Forall (fun kd => argDefAnnotated (extensionName this) (snd kd) = false) (pre ++ post) ->
  scalarField d = true ->
  firstAnnotation (extensionName this) d = c ->
  truthy c = true ->
  Obj.get x bag = Some v ->
  transform this v (AValue c) = Ok v' ->
  exists f out,
    buildResolverMiddleware this (pre ++ (x, d) :: post) = Some (TFun f)
    /\ f (VObj bag) = Ok (VObj out)
    /\ Obj.get x out = Some v'
    /\ (forall y, y <> x -> Obj.get y out = Obj.get y bag)
    /\ Obj.keys out = Obj.keys bag.
Proof.
  intros Hall Hscalar Hc Htruthy Hget Hf. subst c.
  eexists. exists (Obj.set x v' bag). split; [now apply compile_single|].
  split; [|split; [|split]].
  - rewrite compose_single, (@readPlain_own x v bag Hget). unfold makeTransform.
    rewrite Hf. reflexivity.
  - apply get_set_eq.
  - intros y Hy. apply get_set_neq. congruence.
  - apply keys_set_in.
    destruct (in_dec string_dec x (Obj.keys bag)) as [|Hnin]; auto.
    apply get_none_keys in Hnin. congruence.
Qed.

Lemma single_scalar_position_witness :
  Forall (fun kd => argDefAnnotated (extensionName expectPlugin) (snd kd) = false)
         ([("a", mkArgDef GraphQLString None)] ++ [])
  /\ scalarField (mkArgDef GraphQLString (expect (VStr "X"))) = true
  /\ firstAnnotation (extensionName expectPlugin)
       (mkArgDef GraphQLString (expect (VStr "X")))
     = VObj [("to", VStr "X")]
  /\ truthy (VObj [("to", VStr "X")]) = true
  /\ Obj.get "b" [("a", VStr "keep"); ("b", VStr "old")] = Some (VStr "old")
  /\ transform expectPlugin (VStr "old") (AValue (VObj [("to", VStr "X")])) = Ok (VStr "X")
  /\ exists f out,
      buildResolverMiddleware expectPlugin keepAndReplaceArgs = Some (TFun f)
      /\ f (VObj [("a", VStr "keep"); ("b", VStr "old")]) = Ok (VObj out)
      /\ Obj.get "b" out = Some (VStr "X")
      /\ (forall y, y <> "b" -> Obj.get y out = Obj.get y [("a", VStr "keep"); ("b", VStr "old")])
      /\ Obj.keys out = Obj.keys [("a", VStr "keep"); ("b", VStr "old")].
Proof.
  split; [repeat constructor|].
  split; [reflexivity|]. split; [reflexivity|]. split; [reflexivity|].
  split; [reflexivity|]. split; [reflexivity|].
  apply (@single_scalar_position expectPlugin [("a", mkArgDef GraphQLString None)] []
           "b" (mkArgDef GraphQLString (expect (VStr "X")))
           (VObj [("to", VStr "X")]) [("a", VStr "keep"); ("b", VStr "old")]
           (VStr "old") (VStr "X"));
    try reflexivity.
  repeat constructor.
Defined.

(** C1, at a failing input: a transformer keyed ["toString"], compiled over
    a tree whose one annotated field is the scalar [b].  The sibling [a]
    stores nothing under the key, but its [extensions] object inherits a
    member of that name from [Object.prototype]; the engine takes the member
    for a configuration, and the compiled function transforms [a] as well. *)
Theorem inherited_key_transforms_sibling :
  annotatedAt (extensionName toStringKeyed) (Some []) = false
  /\ typeAnnotated (extensionName toStringKeyed) GraphQLString = false
  /\ getExtensions toStringKeyed (NArgDef (mkArgDef GraphQLString (Some [])))
     = AValue (VBuiltin "toString")
  /\ buildResolverMiddleware toStringKeyed siblingArgs
     = Some (TFun (composeKeyTransformers
                     [("a", Some (TFun (makeTransform toStringKeyed
                                          (AValue (VBuiltin "toString")))));
                      ("b", Some (TFun (makeTransform toStringKeyed
                                          (AValue (VObj [("to", VStr "X")])))))]))
  /\ invoke (buildResolverMiddleware toStringKeyed siblingArgs)
            (VObj [("a", VStr "keep"); ("b", VStr "old")])
     = Some (Ok (VObj [("a", VStr "REPLACED"); ("b", VStr "REPLACED")])).
Proof. repeat split. Qed.

(** The [extensions] of a type have no prototype: under the same key, a
    scalar type with an empty [extensions] map reads as unannotated, and the
    tree compiles to [undefined]. *)
Example type_extensions_do_not_inherit :
  buildResolverMiddleware toStringKeyed
    [("a", mkArgDef (GScalar "Plain" (Some [])) None)]
  = None.
Proof. reflexivity. Qed.

(** The specification's example, evaluated. *)
Example keep_and_replace :
  invoke (buildResolverMiddleware expectPlugin keepAndReplaceArgs)
        (VObj [("a", VStr "keep"); ("b", VStr "old")])
  = Some (Ok (VObj [("a", VStr "keep"); ("b", VStr "X")])).
Proof. reflexivity. Qed.

Lemma absent_key_is_materialized_witness :
  let c := AValue (VObj [("to", VStr "X")]) in
  let kts := [("b", Some (TFun (makeTransform expectPlugin c)))] in
  let bag := [("a", VStr "keep")] in
  NoDup (map fst kts)
  /\ In ("b", Some (TFun (makeTransform expectPlugin c))) kts
  /\ Obj.get "b" bag = None
  /\ inherited "b" = false
  /\ Forall (returnsOn bag) kts
  /\ exists out v',
      composeKeyTransformers kts (VObj bag) = Ok (VObj out)
      /\ transform expectPlugin VUndefined c = Ok v'
      /\ Obj.get "b" out = Some v'
      /\ In "b" (Obj.keys out).
Proof.
  intros c kts bag.
  assert (Hnd : NoDup (map fst kts)) by (repeat constructor; simpl; tauto).
  assert (Hin : In ("b", Some (TFun (makeTransform expectPlugin c))) kts)
    by (left; reflexivity).
  assert (Hall : Forall (returnsOn bag) kts)
    by (repeat constructor; exists (VStr "X"); reflexivity).
  split; [exact Hnd|]. split; [exact Hin|]. split; [reflexivity|].
  split; [reflexivity|]. split; [exact Hall|].
  exact (@absent_key_is_materialized expectPlugin c kts "b" bag Hnd Hin eq_refl eq_refl Hall).
Defined.

(** The specification's illustration for an absent key: the output bag gains
    the key. *)
Example absent_key_example :
  invoke (buildResolverMiddleware expectPlugin keepAndReplaceArgs) (VObj [("a", VStr "keep")])
  = Some (Ok (VObj [("a", VStr "keep"); ("b", VStr "X")])).
Proof. reflexivity. Qed.

(** ** Malformed annotations *)

(** The extractor of [strict] rejects the options stored on [x]; the
    compilation returns a function all the same, and the defect shows when
    that function is invoked. *)
Example malformed_compiles_and_fails_later :
  extractConfig strict [("from", VStr "?")] = Throw (Thrown (VStr "missing option: to"))
  /\ invoke (buildResolverMiddleware strict malformedArgs) (VObj [("x", VStr "v")])
     = Some (Throw (Thrown (VStr "invalid configuration"))).
Proof. split; reflexivity. Qed.




(** A falsy value stored under the key reads as no annotation: the tree
    compiles to [undefined], and nothing fails, at the compilation or
    later. *)
Example falsy_annotation_is_no_annotation :
  buildResolverMiddleware strict [("x", mkArgDef GraphQLString (Some [("strict", VNull)]))]
  = None.
Proof. reflexivity. Qed.

(** ** Annotations under other keys *)

(** Storing a value under another key leaves the annotation stored under
    [name] as it was, also when there was no [extensions] before. *)
Lemma annotation_set_other (name k : string) (v : Value) (e : option Extensions) :
  k <> name ->
  annotation name (Some (Obj.set k v (match e with Some r => r | None => [] end)))
  = annotation name e.
Proof.
  intros Hne. unfold annotation. rewrite get_set_neq by exact Hne.
  destruct e; reflexivity.
Qed.

Section OtherKeys.

Variable this : InputTransformer.
Local Abbreviation name := (extensionName this).

Lemma visit_same_extensions (cv : ChildValues TVal) (node node' : Node)
    (ctx : NodeCtx TVal) :
  getExtensions this node = getExtensions this node' ->
  visit this cv node ctx = visit this cv node' ctx.
Proof. unfold visit. intros ->. reflexivity. Qed.

Lemma sameType_wrapping (t : GType) :
  forall t', sameType name t t' ->
             snd (unwrapGraphQLDef t) = snd (unwrapGraphQLDef t').
Proof.
  induction t as [t IH|t IH|n e|n e fields]; intros [t'|t'|n' e'|n' e' fields'];
    simpl; try contradiction; auto; intros Hsame; apply IH in Hsame;
    destruct (unwrapGraphQLDef t), (unwrapGraphQLDef t'); simpl in *; congruence.
Qed.

Lemma sameType_extensions (t t' : GType) :
  sameType name t t' ->
  getExtensions this (NArgType (ATType t)) = getExtensions this (NArgType (ATType t')).
Proof.
  rewrite !getExtensions_type. fold name.
  destruct t, t'; simpl; try contradiction; auto; intros (_ & -> & _) || intros (_ & ->);
    reflexivity.
Qed.

Lemma reduceOverTerminal_same (t : GType) :
  forall (t' : GType) (ctx : NodeCtx TVal),
    sameType name t t' ->
    reduceOverTerminal (visit this) t ctx = reduceOverTerminal (visit this) t' ctx.
Proof.
  induction t as [t IH|t IH|n e|n e fields IH] using GType_fields_ind;
    intros [t'|t'|n' e'|n' e' fields'] ctx Hsame; simpl in Hsame; try contradiction.
  - simpl. now apply IH.
  - simpl. now apply IH.
  - simpl. f_equal. apply visit_same_extensions.
    now apply (sameType_extensions (GScalar n e) (GScalar n' e')).
  - assert (Hext : getExtensions this (NArgType (ATType (GInputObject n e fields)))
                   = getExtensions this (NArgType (ATType (GInputObject n' e' fields'))))
      by now apply sameType_extensions.
    destruct Hsame as (_ & _ & Hfields). simpl.
    assert (Hmap : map (reduceFieldWith (visit this) (reduceOverTerminal (visit this))
                          (initialNodeValue ctx)) fields
                   = map (reduceFieldWith (visit this) (reduceOverTerminal (visit this))
                            (initialNodeValue ctx)) fields').
    { clear Hext. revert fields' Hfields.
      induction IH as [|kf rest Hkf _ IHrest]; intros [|kf' rest'] Hfields;
        simpl in Hfields; try contradiction; auto.
      destruct Hfields as ((Hkey & Hann & Htype) & Hrest).
      simpl. f_equal; [|now apply IHrest].
      unfold reduceFieldWith. rewrite Hkey.
      assert (Hw : snd (unwrapType (ATField (snd kf)))
                   = snd (unwrapType (ATField (snd kf')))).
      { rewrite !unwrapType_field, !unwrapType_type. simpl.
        now apply sameType_wrapping. }
      rewrite Hw. f_equal. f_equal.
      - apply visit_same_extensions. rewrite !getExtensions_field. fold name.
        now rewrite Hann.
      - now apply Hkf. }
    unfold Obj.entries. rewrite Hmap.
    rewrite (visit_same_extensions _ _ _ _ Hext).
    f_equal. now apply visit_same_extensions.
Qed.

Lemma reduceOverArgDef_same (d d' : ArgDef) (ctx : NodeCtx TVal) :
  definitionAnnotation name (argExtensions d)
  = definitionAnnotation name (argExtensions d') ->
  sameType name (argType d) (argType d') ->
  reduceOverArgDef (visit this) d ctx = reduceOverArgDef (visit this) d' ctx.
Proof.
  intros Hann Htype. unfold reduceOverArgDef.
  rewrite !reduceOverArgType_type, !unwrapType_type. simpl snd.
  rewrite (sameType_wrapping _ _ Htype).
  rewrite (reduceOverTerminal_same _ _ _ Htype).
  rewrite (visit_same_extensions _ (NArgType (ATType (argType d)))
             (NArgType (ATType (argType d'))) _ (sameType_extensions _ _ Htype)).
  f_equal. apply visit_same_extensions. rewrite !getExtensions_argDef. fold name.
  now rewrite Hann.
Qed.

Lemma sameTree_keys (argDefs argDefs' : Rec ArgDef) (k : string) :
  sameTree name argDefs argDefs' ->
  Obj.get k argDefs = None -> Obj.get k argDefs' = None.
Proof.
  induction 1 as [|[x d] [x' d'] rest rest' (Hkey & _) _ IH]; simpl; auto.
  simpl in Hkey. subst x'. destruct (String.eqb x k); [discriminate | exact IH].
Qed.

(** The function a transformer compiles depends on what the tree reads
    under its own key only: two trees that read alike under it compile to
    the same result, provided no top-level field is named [extensions]. *)
Lemma compile_ignores_other_keys (argDefs argDefs' : Rec ArgDef) :
  Obj.get "extensions" argDefs = None ->
  sameTree name argDefs argDefs' ->
  buildResolverMiddleware this argDefs = buildResolverMiddleware this argDefs'.
Proof.
  intros Hno Hsame.
  unfold buildResolverMiddleware, reduceOverArgDefs, Obj.entries.
  assert (Hmap : forall g g' : string * ArgDef -> string * option TVal,
             (forall kd kd', sameArgDef name kd kd' -> g kd = g' kd') ->
             map g argDefs = map g' argDefs').
  { intros g g' Hg. induction Hsame as [|kd kd' rest rest' Hkd _ IH]; simpl; auto.
    f_equal; [now apply Hg | apply IH].
    simpl in Hno. destruct (String.eqb (fst kd) "extensions") eqn:E.
    - destruct kd. simpl in *. rewrite E in Hno. discriminate.
    - destruct kd. simpl in *. now rewrite E in Hno. }
  rewrite (Hmap _ (fun kd : string * ArgDef =>
                     (fst kd,
                      reduceOverArgDef (visit this) (snd kd)
                        {| key := Some (fst kd); wrapping := [];
                           initialNodeValue := Some TNull |}))).
  - apply visit_same_extensions. unfold getExtensions, hasExtensions. simpl.
    now rewrite Hno, (sameTree_keys _ Hsame Hno).
  - intros kd kd' (Hkey & Hann & Htype). rewrite Hkey. f_equal.
    now apply reduceOverArgDef_same.
Qed.

End OtherKeys.

(** C9, at a failing input: a transformer keyed ["extensions"], compiled
    over a tree whose argument is named [extensions], compiles to a function
    that changes when the annotation another transformer stored under the
    key ["other"] changes.  The two trees differ under the key ["other"]
    only.  The defect is the one of C5: at the root the reducer takes the
    argument definition stored under [extensions] for an extensions record. *)
Theorem other_key_reaches_compiled_function :
  sameTree (extensionName extensionsKeyed) (otherAnnotated 1) (otherAnnotated 2)
  /\ invoke (buildResolverMiddleware extensionsKeyed (otherAnnotated 1))
           (VObj [("extensions", VStr "a")])
     = Some (Ok (VObj [("other", VNum 1)]))
  /\ invoke (buildResolverMiddleware extensionsKeyed (otherAnnotated 2))
           (VObj [("extensions", VStr "a")])
     = Some (Ok (VObj [("other", VNum 2)])).
Proof.
  split; [|split; reflexivity].
  repeat constructor.
Qed.

(** ** Allocation *)

Lemma read_alloc_old (a : Heap.Addr) (h ext : Heap.t) (bag : Rec Value) :
  Heap.read a h = Some bag -> Heap.read a (h ++ ext) = Some bag.
Proof.
  unfold Heap.read. intros H. rewrite nth_error_app1; auto.
  apply nth_error_Some. congruence.
Qed.

Lemma read_alloc_new (o : Rec Value) (h : Heap.t) :
  Heap.read (fst (Heap.alloc o h)) (snd (Heap.alloc o h)) = Some o.
Proof.
  unfold Heap.read, Heap.alloc. simpl.
  rewrite nth_error_app2, Nat.sub_diag; auto.
Qed.

Lemma read_in_heap (a : Heap.Addr) (h : Heap.t) (bag : Rec Value) :
  Heap.read a h = Some bag -> a < List.length h.
Proof. unfold Heap.read. intros H. apply nth_error_Some. congruence. Qed.

(** The reading over the heap refines the composed function: it fails when
    the function throws, with the same exception; when the function returns
    a bag, it returns the address of that bag in a heap that extends the
    given one, and the address is a new one unless there was no key
    transformer to apply. *)
Lemma heap_compose_refines (kts : list KeyTransformer) :
  forall (a : Heap.Addr) (h : Heap.t) (bag : Rec Value),
    Heap.read a h = Some bag ->
    match composeKeyTransformers kts (VObj bag) with
    | Ok r =>
        exists out a' ext,
          r = VObj out
          /\ Heap.composeKeyTransformers kts a h = Ok (a', h ++ ext)
          /\ Heap.read a' (h ++ ext) = Some out
          /\ (kts <> [] -> List.length h <= a')
    | Throw e => Heap.composeKeyTransformers kts a h = Throw e
    end.
Proof.
  induction kts as [|[k f] rest IH]; intros a h bag Hread.
  - simpl. exists bag, a, []. rewrite app_nil_r. repeat split; auto. congruence.
  - rewrite compose_cons, composeStep_bag. simpl.
    unfold Heap.composeStep. rewrite Hread. simpl.
    destruct (call f (readPlain k bag)) as [v'|e]; simpl; auto.
    specialize (IH (List.length h) (h ++ [Obj.set k v' bag]) (Obj.set k v' bag)
                   (read_alloc_new (Obj.set k v' bag) h)).
    destruct (composeKeyTransformers rest (VObj (Obj.set k v' bag))) as [r|e]; auto.
    destruct IH as (out & a' & ext & -> & Hrun & Hout & Hfresh).
    exists out, a', ([Obj.set k v' bag] ++ ext).
    rewrite app_assoc. repeat split; auto.
    intros _. destruct rest as [|kt rest'].
    + simpl in Hrun. injection Hrun as <- _. auto.
    + assert (Hlen : List.length (h ++ [Obj.set k v' bag]) <= a')
        by (apply Hfresh; discriminate).
      rewrite length_app in Hlen. simpl in Hlen. lia.
Qed.

(** X15: a tree with an annotated position compiles to the composition of
    the key transformers discovered for its top-level fields.  Called
    twice on the same input bag, on which it returns, the compiled function
    returns two bags at two distinct addresses, both new and hence distinct
    from the input's, with equal contents; every bag that was in the heap
    before the calls, the input bag among them, is left as it was.  When
    it throws on the bag, so does the call over the heap. *)
Theorem two_calls_two_equal_fresh_bags
    (this : InputTransformer) (argDefs : Rec ArgDef)
    (h : Heap.t) (a : Heap.Addr) (bag : Rec Value) :
  treeAnnotated (extensionName this) argDefs = true ->
  Heap.read a h = Some bag ->
  buildResolverMiddleware this argDefs
  = Some (TFun (composeKeyTransformers (discovered this argDefs)))
  /\ match composeKeyTransformers (discovered this argDefs) (VObj bag) with
     | Ok r =>
         exists out a1 h1 a2 h2,
           r = VObj out
           /\ Heap.composeKeyTransformers (discovered this argDefs) a h = Ok (a1, h1)
           /\ Heap.composeKeyTransformers (discovered this argDefs) a h1 = Ok (a2, h2)
           /\ Heap.read a1 h2 = Some out
           /\ Heap.read a2 h2 = Some out
           /\ a1 <> a2 /\ a1 <> a /\ a2 <> a
           /\ (forall b o, Heap.read b h = Some o -> Heap.read b h2 = Some o)
     | Throw e => Heap.composeKeyTransformers (discovered this argDefs) a h = Throw e
     end.
Proof.
  intros Hann Hread.
  destruct (compile_decides this argDefs) as [Hfun _].
  destruct (Hfun Hann) as (Hne & Hcompile).
  split; [exact Hcompile|].
  set (kts := discovered this argDefs) in *.
  pose proof (heap_compose_refines kts a h Hread) as H1.
  destruct (composeKeyTransformers kts (VObj bag)) as [r|e] eqn:Hrun; [|exact H1].
  destruct H1 as (out & a1 & ext1 & -> & Hrun1 & Hout1 & Hfresh1).
  assert (Hread1 : Heap.read a (h ++ ext1) = Some bag) by now apply read_alloc_old.
  pose proof (heap_compose_refines kts a (h ++ ext1) Hread1) as H2. rewrite Hrun in H2.
  destruct H2 as (out2 & a2 & ext2 & Heq & Hrun2 & Hout2 & Hfresh2).
  injection Heq as <-.
  specialize (Hfresh1 Hne). specialize (Hfresh2 Hne).
  pose proof (read_in_heap _ _ Hread) as Ha.
  pose proof (read_in_heap _ _ Hout1) as Ha1.
  exists out, a1, (h ++ ext1), a2, ((h ++ ext1) ++ ext2).
  repeat split; auto; try lia.
  - now apply read_alloc_old.
  - intros b o Hb. apply read_alloc_old; auto. now apply read_alloc_old.
Qed.

Lemma two_calls_two_equal_fresh_bags_witness :
  let bag := [("a", VStr "keep"); ("b", VStr "old")] in
  let h := [bag] in
  treeAnnotated (extensionName expectPlugin) keepAndReplaceArgs = true
  /\ Heap.read 0 h = Some bag
  /\ composeKeyTransformers (discovered expectPlugin keepAndReplaceArgs) (VObj bag)
     = Ok (VObj [("a", VStr "keep"); ("b", VStr "X")])
  /\ buildResolverMiddleware expectPlugin keepAndReplaceArgs
     = Some (TFun (composeKeyTransformers (discovered expectPlugin keepAndReplaceArgs)))
  /\ match composeKeyTransformers (discovered expectPlugin keepAndReplaceArgs) (VObj bag) with
     | Ok r =>
         exists out a1 h1 a2 h2,
           r = VObj out
           /\ Heap.composeKeyTransformers (discovered expectPlugin keepAndReplaceArgs) 0 h
              = Ok (a1, h1)
           /\ Heap.composeKeyTransformers (discovered expectPlugin keepAndReplaceArgs) 0 h1
              = Ok (a2, h2)
           /\ Heap.read a1 h2 = Some out
           /\ Heap.read a2 h2 = Some out
           /\ a1 <> a2 /\ a1 <> 0 /\ a2 <> 0
           /\ (forall b o, Heap.read b h = Some o -> Heap.read b h2 = Some o)
     | Throw e =>
         Heap.composeKeyTransformers (discovered expectPlugin keepAndReplaceArgs) 0 h
         = Throw e
     end.
Proof.
  intros bag h.
  split; [reflexivity|]. split; [reflexivity|]. split; [reflexivity|].
  exact (@two_calls_two_equal_fresh_bags expectPlugin keepAndReplaceArgs h 0 bag
           eq_refl eq_refl).
Defined.

(** C8, at a failing input: the tree of C5, whose only argument is named
    [extensions] and in which nothing is annotated, compiled by a
    transformer keyed ["type"] whose transform is [(input) => input].  The
    compiled function is not a composition of key transformers: it is the
    caller's transform, applied to the whole bag, and what it returns is the
    bag it was given.  No object literal is evaluated, so two calls on one
    bag return that bag twice, not two bags allocated apart from it. *)
Theorem unannotated_tree_returns_the_input_bag :
  treeAnnotated (extensionName echoKeyed) extensionsArgs = false
  /\ buildResolverMiddleware echoKeyed extensionsArgs
     = Some (TFun (makeTransform echoKeyed (AType GraphQLString)))
  /\ (forall args : Value, makeTransform echoKeyed (AType GraphQLString) args = Ok args)
  /\ invoke (buildResolverMiddleware echoKeyed extensionsArgs)
            (VObj [("extensions", VStr "a")])
     = Some (Ok (VObj [("extensions", VStr "a")])).
Proof. repeat split. Qed.

(** Two calls on the bag at address [0] of a one-bag heap: the outputs are
    the bags at addresses [1] and [2], and the input bag is unchanged. *)
Example two_calls_example :
  let kts := [("b", Some (constantly (VStr "X")))] in
  let h := [[("a", VStr "keep"); ("b", VStr "old")]] in
  exists h1 h2,
    Heap.composeKeyTransformers kts 0 h = Ok (1, h1)
    /\ Heap.composeKeyTransformers kts 0 h1 = Ok (2, h2)
    /\ Heap.read 0 h2 = Some [("a", VStr "keep"); ("b", VStr "old")]
    /\ Heap.read 1 h2 = Some [("a", VStr "keep"); ("b", VStr "X")]
    /\ Heap.read 2 h2 = Some [("a", VStr "keep"); ("b", VStr "X")].
Proof. simpl. eexists. eexists. repeat split. Qed.

(** * Further properties of the composed function *)

Lemma keys_set (V : Type) (k : string) (v : V) (o : Rec V) :
  Obj.keys (Obj.set k v o)
  = if in_dec string_dec k (Obj.keys o) then Obj.keys o else Obj.keys o ++ [k].
Proof.
  destruct (in_dec string_dec k (Obj.keys o)) as [Hin|Hnin].
  - now apply keys_set_in.
  - rewrite set_fresh by exact Hnin. unfold Obj.keys. now rewrite map_app.
Qed.

Lemma keys_set_iff (V : Type) (k y : string) (v : V) (o : Rec V) :
  In y (Obj.keys (Obj.set k v o)) <-> In y (Obj.keys o) \/ y = k.
Proof.
  rewrite keys_set. destruct (in_dec string_dec k (Obj.keys o)) as [Hin|Hnin].
  - split; [tauto|]. intros [H| ->]; auto.
  - rewrite in_app_iff. simpl. split; intros [H|H]; auto.
    destruct H as [<-|[]]. now right.
Qed.

Lemma keys_set_NoDup (V : Type) (k : string) (v : V) (o : Rec V) :
  NoDup (Obj.keys o) -> NoDup (Obj.keys (Obj.set k v o)).
Proof.
  intros Hnd. rewrite keys_set. destruct (in_dec string_dec k (Obj.keys o)) as [Hin|Hnin]; auto.
  apply NoDup_app; auto.
  - repeat constructor. simpl. tauto.
  - intros y Hy [<-|[]]. contradiction.
Qed.

(** What a composed function returns on a bag is a bag: it agrees with the
    input on every key that has no transformer, and its keys are those of
    the input and those of the transformers. *)
Lemma compose_bag (kts : list KeyTransformer) :
  forall (bag : Rec Value) (r : Value),
    composeKeyTransformers kts (VObj bag) = Ok r ->
    exists out,
      r = VObj out
      /\ (forall y, ~ In y (map fst kts) -> Obj.get y out = Obj.get y bag)
      /\ (forall y, In y (Obj.keys out) <-> In y (Obj.keys bag) \/ In y (map fst kts))
      /\ (NoDup (Obj.keys bag) -> NoDup (Obj.keys out)).
Proof.
  induction kts as [|[k f] rest IH]; intros bag r Hrun.
  - simpl in Hrun. injection Hrun as <-. exists bag.
    split; [reflexivity|]. split; [auto|]. split; [|auto].
    intros y. simpl. tauto.
  - rewrite compose_cons, composeStep_bag in Hrun. simpl in Hrun.
    destruct (call f (readPlain k bag)) as [v'|e]; simpl in Hrun;
      [|discriminate].
    destruct (IH _ _ Hrun) as (out & -> & Hsame & Hkeys & Hnd).
    exists out. split; [reflexivity|]. split; [|split].
    + intros y Hy. simpl in Hy. rewrite Hsame by tauto. apply get_set_neq. tauto.
    + intros y. rewrite Hkeys, keys_set_iff. simpl. intuition.
    + intros Hbag. apply Hnd. now apply keys_set_NoDup.
Qed.

(** X1: whatever a compiled function returns on a bag is again a bag whose
    keys are exactly the keys of the input bag together with the keys of the
    key transformers: no key is dropped, none but a transformer's key is
    added, and distinct keys stay distinct. *)
Theorem composed_function_keys
    (kts : list KeyTransformer) (bag : Rec Value) (r : Value) :
  composeKeyTransformers kts (VObj bag) = Ok r ->
  exists out,
    r = VObj out
    /\ (forall y, In y (Obj.keys out) <-> In y (Obj.keys bag) \/ In y (map fst kts))
    /\ (NoDup (Obj.keys bag) -> NoDup (Obj.keys out)).
Proof.
  intros Hrun. destruct (compose_bag kts bag Hrun) as (out & Hr & _ & Hkeys & Hnd).
  exists out. repeat split; auto; apply Hkeys.
Qed.

Lemma composed_function_keys_witness :
  let kts := [("b", Some (constantly (VStr "X")))] in
  let bag := [("a", VStr "keep")] in
  composeKeyTransformers kts (VObj bag) = Ok (VObj [("a", VStr "keep"); ("b", VStr "X")])
  /\ exists out,
      VObj [("a", VStr "keep"); ("b", VStr "X")] = VObj out
      /\ (forall y, In y (Obj.keys out) <-> In y (Obj.keys bag) \/ In y (map fst kts))
      /\ (NoDup (Obj.keys bag) -> NoDup (Obj.keys out)).
Proof.
  intros kts bag. split; [reflexivity|].
  apply (@composed_function_keys kts bag (VObj [("a", VStr "keep"); ("b", VStr "X")])).
  reflexivity.
Defined.

(** X2: composing a list of key transformers is composing its two halves in
    sequence: the second half runs on what the first returns, and does not
    run when the first throws. *)
Theorem compose_splits (pre post : list KeyTransformer) (args : Value) :
  composeKeyTransformers (pre ++ post) args
  = match composeKeyTransformers pre args with
    | Ok carry => composeKeyTransformers post carry
    | Throw e => Throw e
    end.
Proof.
  revert args. induction pre as [|kt pre IH]; intros args.
  - reflexivity.
  - simpl app. rewrite !compose_cons.
    destruct (composeStep args kt) as [carry|e]; simpl; auto.
Qed.

(** X3: a compiled function with at least one key transformer throws a
    [TypeError] when it is applied to [undefined] or [null], whatever its
    transforms are.  This is what happens to the key transformer of a nested
    input object when the bag lacks that object or holds [null] for it: the
    whole call throws. *)
Theorem nested_absent_object_throws
    (inner : list KeyTransformer) (k : string) (post : list KeyTransformer)
    (bag : Rec Value) :
  inner <> [] ->
  readPlain k bag = VUndefined \/ readPlain k bag = VNull ->
  composeKeyTransformers inner (readPlain k bag) = Throw TypeError
  /\ composeKeyTransformers
       ((k, Some (TFun (composeKeyTransformers inner))) :: post) (VObj bag)
     = Throw TypeError.
Proof.
  intros Hne Habsent.
  assert (Hinner : composeKeyTransformers inner (readPlain k bag)
                   = Throw TypeError).
  { destruct inner as [|kt rest]; [congruence|].
    rewrite compose_cons. unfold composeStep.
    destruct Habsent as [-> | ->]; reflexivity. }
  split; [exact Hinner|].
  rewrite compose_cons, composeStep_bag. simpl. now rewrite Hinner.
Qed.

Lemma nested_absent_object_throws_witness :
  let inner := [("target", Some (constantly (VStr "V")))] in
  let bag := [("a", VStr "keep")] in
  inner <> []
  /\ (readPlain "box" bag = VUndefined \/ readPlain "box" bag = VNull)
  /\ composeKeyTransformers inner (readPlain "box" bag) = Throw TypeError
  /\ composeKeyTransformers
       (("box", Some (TFun (composeKeyTransformers inner))) :: []) (VObj bag)
     = Throw TypeError.
Proof.
  intros inner bag.
  assert (Hne : inner <> []) by discriminate.
  assert (Habsent : readPlain "box" bag = VUndefined
                    \/ readPlain "box" bag = VNull) by (left; reflexivity).
  split; [exact Hne|]. split; [exact Habsent|].
  exact (@nested_absent_object_throws inner "box" [] bag Hne Habsent).
Defined.

(** X4: under distinct keys the order of the key transformers does not
    matter to the result: when every transformer returns on the value the
    bag holds for its key, the composed function returns in any order of the
    transformers, and the bags returned hold the same value under every
    key. *)
Theorem order_of_keys_is_immaterial
    (kts kts' : list KeyTransformer) (bag : Rec Value) :
  NoDup (map fst kts) ->
  Permutation.Permutation kts kts' ->
  Forall (returnsOn bag) kts ->
  exists out out',
    composeKeyTransformers kts (VObj bag) = Ok (VObj out)
    /\ composeKeyTransformers kts' (VObj bag) = Ok (VObj out')
    /\ forall y, Obj.get y out = Obj.get y out'.
Proof.
  intros Hnd Hperm Hall.
  assert (Hnd' : NoDup (map fst kts')).
  { eapply Permutation.Permutation_NoDup; [|exact Hnd].
    now apply Permutation.Permutation_map. }
  assert (Hall' : Forall (returnsOn bag) kts').
  { rewrite Forall_forall in *. intros kt Hkt. apply Hall.
    eapply Permutation.Permutation_in; [|exact Hkt].
    now apply Permutation.Permutation_sym. }
  destruct (compose_independent Hnd Hall) as (out & Hrun & Hin & Hout).
  destruct (compose_independent Hnd' Hall') as (out' & Hrun' & Hin' & Hout').
  exists out, out'. split; [exact Hrun|]. split; [exact Hrun'|].
  intros y. destruct (in_dec string_dec y (map fst kts)) as [Hy|Hy].
  - apply in_map_iff in Hy. destruct Hy as (kt & <- & Hkt).
    rewrite Forall_forall in Hall. destruct (Hall kt Hkt) as [r Hr].
    rewrite (Hin kt r Hkt Hr).
    symmetry. apply Hin'; auto.
    eapply Permutation.Permutation_in; eauto.
  - rewrite Hout by exact Hy. symmetry. apply Hout'.
    intros Hy'. apply Hy.
    eapply Permutation.Permutation_in; [|exact Hy'].
    apply Permutation.Permutation_map. now apply Permutation.Permutation_sym.
Qed.

Lemma order_of_keys_is_immaterial_witness :
  let kts := [("a", Some (constantly (VStr "A"))); ("b", Some (constantly (VStr "B")))] in
  let kts' := [("b", Some (constantly (VStr "B"))); ("a", Some (constantly (VStr "A")))] in
  let bag := [("b", VNum 2); ("c", VNum 3)] in
  NoDup (map fst kts)
  /\ Permutation.Permutation kts kts'
  /\ Forall (returnsOn bag) kts
  /\ exists out out',
      composeKeyTransformers kts (VObj bag) = Ok (VObj out)
      /\ composeKeyTransformers kts' (VObj bag) = Ok (VObj out')
      /\ forall y, Obj.get y out = Obj.get y out'.
Proof.
  intros kts kts' bag.
  assert (Hnd : NoDup (map fst kts)).
  { repeat constructor; simpl; intuition discriminate. }
  assert (Hperm : Permutation.Permutation kts kts') by apply Permutation.perm_swap.
  assert (Hall : Forall (returnsOn bag) kts).
  { repeat constructor; [exists (VStr "A") | exists (VStr "B")]; reflexivity. }
  split; [exact Hnd|]. split; [exact Hperm|]. split; [exact Hall|].
  exact (@order_of_keys_is_immaterial kts kts' bag Hnd Hperm Hall).
Defined.

(** * Further properties of the traversal *)

Lemma set_Forall (V : Type) (P : V -> Prop) (k : string) (v : V) (o : Rec V) :
  P v -> Forall (fun kv => P (snd kv)) o -> Forall (fun kv => P (snd kv)) (Obj.set k v o).
Proof.
  intros Hv. induction 1 as [|[k0 w] rest Hw Hrest IH]; simpl.
  - repeat constructor. exact Hv.
  - destruct (String.eqb k0 k); constructor; auto.
Qed.

Lemma fromEntries_Forall (V : Type) (P : V -> Prop) (es : list (string * V)) :
  Forall (fun kv => P (snd kv)) es -> Forall (fun kv => P (snd kv)) (Obj.fromEntries es).
Proof.
  unfold Obj.fromEntries.
  assert (H : forall o, Forall (fun kv => P (snd kv)) o ->
                        Forall (fun kv => P (snd kv)) es ->
                        Forall (fun kv => P (snd kv))
                               (fold_left (fun o kv => Obj.set (fst kv) (snd kv) o) es o)).
  { induction es as [|kv rest IH]; intros o Ho Hes; simpl; auto.
    inversion Hes; subst. apply IH; auto. now apply set_Forall. }
  intros Hes. apply H; auto.
Qed.

Lemma fromEntries_keys (V : Type) (es : list (string * V)) :
  incl (Obj.keys (Obj.fromEntries es)) (Obj.keys es).
Proof.
  unfold Obj.fromEntries.
  assert (H : forall o, incl (Obj.keys (fold_left (fun o kv => Obj.set (fst kv) (snd kv) o) es o))
                             (Obj.keys o ++ Obj.keys es)).
  { induction es as [|kv rest IH]; intros o; simpl.
    - rewrite app_nil_r. apply incl_refl.
    - intros y Hy. apply IH in Hy. apply in_app_iff in Hy. apply in_app_iff.
      destruct Hy as [Hy|Hy].
      + apply keys_set_iff in Hy. destruct Hy as [Hy| ->]; [now left|].
        right. now left.
      + right. now right. }
  intros y Hy. apply H in Hy. exact Hy.
Qed.

Section Children.

Variable T : Type.
Variable A : Type.

(** The record built from the children of a node: its entries are defined,
    and its keys are keys of the children. *)
Lemma children_record (g : string * A -> string * option T) (xs : Rec A) :
  (forall kx, fst (g kx) = fst kx) ->
  let r := Obj.fromEntries (filter (@isDefinedEntry T) (map g xs)) in
  Forall (fun kv => isDefinedEntry kv = true) r /\ incl (Obj.keys r) (Obj.keys xs).
Proof.
  intros Hg r. split.
  - set (P := fun v : option T => match v with Some _ => true | None => false end = true).
    assert (Hes : Forall (fun kv : string * option T => P (snd kv))
                         (filter (@isDefinedEntry T) (map g xs))).
    { apply Forall_forall. intros kv Hkv. apply filter_In in Hkv. exact (proj2 Hkv). }
    exact (fromEntries_Forall P Hes).
  - intros y Hy. apply fromEntries_keys in Hy.
    unfold Obj.keys in *. apply in_map_iff in Hy. destruct Hy as (kv & <- & Hkv).
    apply filter_In in Hkv. destruct Hkv as [Hkv _].
    apply in_map_iff in Hkv. destruct Hkv as (kx & <- & Hkx).
    rewrite Hg. now apply in_map.
Qed.

End Children.

Section InStepFolds.

Variable T : Type.
Variables i1 i2 : option T.
Variables r1 r2 : Reducer T.
Hypothesis Hstep :
  forall cv1 ctx1 cv2 ctx2 node,
    InStep i1 i2 cv1 ctx1 cv2 ctx2 node -> r1 cv1 node ctx1 = r2 cv2 node ctx2.

Lemma reduceOverArgType_terminal (reducer : Reducer T) (t : GType) (ctx : NodeCtx T) :
  reduceOverArgType reducer (ATType t) ctx
  = orElse (reducer (CVInitial (initialNodeValue ctx)) (NArgType (ATType t))
              (withWrapping ctx (snd (unwrapType (ATType t)))))
           (reduceOverTerminal reducer t (withWrapping ctx (snd (unwrapType (ATType t))))).
Proof.
  rewrite reduceOverTerminal_eq. unfold reduceOverArgType.
  destruct (unwrapType (ATType t)); reflexivity.
Qed.

Lemma reduceOverTerminal_in_step (t : GType) :
  forall (k : string) (w : list NexusWrapKind),
    reduceOverTerminal r1 t {| key := Some k; wrapping := w; initialNodeValue := i1 |}
    = reduceOverTerminal r2 t {| key := Some k; wrapping := w; initialNodeValue := i2 |}.
Proof.
  induction t as [t IH|t IH|n e|n e fields IH] using GType_fields_ind; intros k w; simpl.
  - apply IH.
  - apply IH.
  - f_equal. apply Hstep. constructor.
  - assert (Hmap : map (reduceFieldWith r1 (reduceOverTerminal r1) i1) fields
                   = map (reduceFieldWith r2 (reduceOverTerminal r2) i2) fields).
    { apply map_ext_in. intros kf Hkf. rewrite Forall_forall in IH.
      unfold reduceFieldWith, withWrapping. simpl. f_equal. f_equal.
      - apply Hstep. constructor.
      - apply (IH kf Hkf). }
    unfold Obj.entries. rewrite Hmap. f_equal.
    + apply Hstep. constructor.
    + apply Hstep.
      destruct (children_record (T:=T)
                  (reduceFieldWith r2 (reduceOverTerminal r2) i2) fields)
        as [Hdef Hkeys]; [reflexivity|].
      now constructor.
Qed.

Lemma reduceOverArgDef_in_step (k : string) (d : ArgDef) :
  reduceOverArgDef r1 d {| key := Some k; wrapping := []; initialNodeValue := i1 |}
  = reduceOverArgDef r2 d {| key := Some k; wrapping := []; initialNodeValue := i2 |}.
Proof.
  unfold reduceOverArgDef. rewrite !reduceOverArgType_terminal.
  unfold withWrapping. simpl. f_equal; [|f_equal].
  - apply Hstep. constructor.
  - apply Hstep. constructor.
  - apply reduceOverTerminal_in_step.
Qed.

Lemma reduceOverArgDefs_in_step (argDefs : Rec ArgDef) :
  reduceOverArgDefs r1 argDefs i1 = reduceOverArgDefs r2 argDefs i2.
Proof.
  unfold reduceOverArgDefs, Obj.entries.
  assert (Hmap : map (fun kd : string * ArgDef =>
                        (fst kd,
                         reduceOverArgDef r1 (snd kd)
                           {| key := Some (fst kd); wrapping := []; initialNodeValue := i1 |}))
                     argDefs
                 = map (fun kd : string * ArgDef =>
                          (fst kd,
                           reduceOverArgDef r2 (snd kd)
                             {| key := Some (fst kd); wrapping := []; initialNodeValue := i2 |}))
                       argDefs).
  { apply map_ext. intros kd. f_equal. apply reduceOverArgDef_in_step. }
  rewrite Hmap. apply Hstep.
  match goal with
  | |- context [map ?g argDefs] =>
      destruct (children_record (T:=T) g argDefs) as [Hdef Hkeys]; [reflexivity|]
  end.
  now constructor.
Qed.

End InStepFolds.

(** X5: the fold consults its visitor only through calls of the four shapes
    of [Shown]: two visitors that answer alike on those calls give the same
    fold.  So a visitor may rely on it that a record it receives holds
    defined results only, under keys of the node's fields; that outside a
    record it receives the caller's initial value; that the context carries
    that same value; that the root alone has no key; and that a field
    definition comes with no wrapper kind. *)
Theorem fold_consults_visitor_on_shown_calls
    (T : Type) (init : option T) (r1 r2 : Reducer T) (argDefs : Rec ArgDef) :
  (forall cv node ctx, Shown init cv node ctx -> r1 cv node ctx = r2 cv node ctx) ->
  reduceOverArgDefs r1 argDefs init = reduceOverArgDefs r2 argDefs init.
Proof.
  intros Hshown. apply reduceOverArgDefs_in_step.
  intros cv1 ctx1 cv2 ctx2 node Hstep.
  destruct Hstep; apply Hshown; now constructor.
Qed.

Lemma fold_consults_visitor_on_shown_calls_witness :
  (forall cv node ctx,
      Shown (Some 0) cv node ctx ->
      countLeaves cv node ctx = distrustful countLeaves cv node ctx)
  /\ reduceOverArgDefs countLeaves getOutputArgs (Some 0)
     = reduceOverArgDefs (distrustful countLeaves) getOutputArgs (Some 0).
Proof.
  assert (Hshown : forall cv node ctx,
             Shown (Some 0) cv node ctx ->
             countLeaves cv node ctx = distrustful countLeaves cv node ctx).
  { intros cv node ctx H. destruct H as [r ? Hdef _| | |? ? ? r Hdef _ _];
      try reflexivity; unfold distrustful;
      rewrite (proj2 (forallb_forall _ r)); auto;
      intros kv Hkv; rewrite Forall_forall in Hdef; now apply Hdef. }
  split; [exact Hshown|].
  exact (@fold_consults_visitor_on_shown_calls nat (Some 0) countLeaves
           (distrustful countLeaves) getOutputArgs Hshown).
Defined.

(** The repository's test tree has nine scalar positions. *)
Example getOutputArgs_leaves :
  reduceOverArgDefs countLeaves getOutputArgs (Some 0) = Some 9.
Proof. reflexivity. Qed.

(** X6: what the compiler compiles does not depend on the value it passes to
    the fold as [initialNodeValue] ([null] in the source): started with any
    other value, the fold returns the same result. *)
Theorem compile_ignores_initial_value
    (this : InputTransformer) (argDefs : Rec ArgDef) (init : option TVal) :
  reduceOverArgDefs (visit this) argDefs init = buildResolverMiddleware this argDefs.
Proof.
  unfold buildResolverMiddleware. apply reduceOverArgDefs_in_step.
  intros cv1 ctx1 cv2 ctx2 node Hstep. destruct Hstep; reflexivity.
Qed.

(** * Further properties of the compilation *)

Section Discovery.

Variable this : InputTransformer.
Local Abbreviation name := (extensionName this).

Lemma discovered_entries (argDefs : Rec ArgDef) :
  forall kt, In kt (discovered this argDefs) ->
             exists d, In (fst kt, d) argDefs /\ argDefAnnotated name d = true.
Proof.
  intros [y v] Hin. unfold discovered in Hin.
  assert (Hy : In y (Obj.keys (filter (@isDefinedEntry TVal)
                 (map (fun kd : string * ArgDef =>
                         (fst kd,
                          reduceOverArgDef (visit this) (snd kd)
                            {| key := Some (fst kd); wrapping := [];
                               initialNodeValue := Some TNull |}))
                      (Obj.entries argDefs))))).
  { apply fromEntries_keys. unfold Obj.keys. apply in_map_iff. now exists (y, v). }
  unfold Obj.keys in Hy. apply in_map_iff in Hy. destruct Hy as ([y' v'] & Hy' & Hkv).
  simpl in Hy'. subst y'. apply filter_In in Hkv. destruct Hkv as [Hkv Hdef].
  apply in_map_iff in Hkv. destruct Hkv as ([x d] & Heq & Hkd).
  simpl in Heq. injection Heq as -> Hv. exists d. split; [exact Hkd|].
  pose proof (reduceOverArgDef_decides this d
                {| key := Some y; wrapping := []; initialNodeValue := Some TNull |}) as Hd.
  rewrite Hv in Hd. unfold isDefinedEntry in Hdef. simpl in Hdef.
  destruct (argDefAnnotated (extensionName this) d); auto.
  simpl in Hd. rewrite Hd in Hdef. discriminate.
Qed.

Lemma filter_keys_decides (argDefs : Rec ArgDef) :
  let g := fun kd : string * ArgDef =>
             (fst kd,
              reduceOverArgDef (visit this) (snd kd)
                {| key := Some (fst kd); wrapping := []; initialNodeValue := Some TNull |}) in
  map fst (filter (@isDefinedEntry TVal) (map g argDefs))
  = map fst (filter (fun kd => argDefAnnotated name (snd kd)) argDefs)
  /\ Forall (fun kt : KeyTransformer => exists f, snd kt = Some (TFun f))
            (filter (@isDefinedEntry TVal) (map g argDefs)).
Proof.
  intros g. induction argDefs as [|[x d] rest [IHkeys IHfun]]; simpl; [split; auto|].
  pose proof (reduceOverArgDef_decides this d
                {| key := Some x; wrapping := []; initialNodeValue := Some TNull |}) as Hd.
  destruct (argDefAnnotated (extensionName this) d); simpl in Hd.
  - destruct Hd as [f Hf].
    assert (Hdef : isDefinedEntry (g (x, d)) = true)
      by (unfold isDefinedEntry, g; simpl; now rewrite Hf).
    rewrite Hdef. simpl. split; [now f_equal|].
    constructor; [exists f; exact Hf | exact IHfun].
  - assert (Hdef : isDefinedEntry (g (x, d)) = false)
      by (unfold isDefinedEntry, g; simpl; now rewrite Hd).
    rewrite Hdef. split; auto.
Qed.

Lemma NoDup_filter_keys (A : Type) (p : string * A -> bool) (xs : Rec A) :
  NoDup (map fst xs) -> NoDup (map fst (filter p xs)).
Proof.
  induction xs as [|x rest IH]; simpl; intros Hnd; auto.
  inversion Hnd as [|? ? Hnin Hrest]; subst.
  destruct (p x); simpl; auto. constructor; auto.
  intros Hin. apply Hnin. apply in_map_iff in Hin. destruct Hin as (y & Hy & Hin).
  apply filter_In in Hin. apply in_map_iff. exists y. tauto.
Qed.

End Discovery.

(** X7: provided no top-level field is named [extensions], a tree compiles
    to [undefined] exactly when no position of it reads as annotated under
    the transformer's key.  A type or a field of an input object type reads
    what its [extensions] store; an argument definition reads, besides, the
    members its [extensions] object inherits from [Object.prototype]. *)
Theorem compiles_to_undefined_iff_unannotated
    (this : InputTransformer) (argDefs : Rec ArgDef) :
  Obj.get "extensions" argDefs = None ->
  (buildResolverMiddleware this argDefs = None
   <-> treeAnnotated (extensionName this) argDefs = false).
Proof.
  intros Hno. destruct (compile_decides this argDefs) as [Hfun Hnone].
  destruct (treeAnnotated (extensionName this) argDefs) eqn:Hann.
  - destruct (Hfun eq_refl) as [_ Hcompile]. rewrite Hcompile.
    split; discriminate.
  - split; auto.
Qed.

Lemma compiles_to_undefined_iff_unannotated_witness :
  Obj.get "extensions" xsArgs = None
  /\ (buildResolverMiddleware expectPlugin xsArgs = None
      <-> treeAnnotated (extensionName expectPlugin) xsArgs = false).
Proof.
  split; [reflexivity|].
  apply (compiles_to_undefined_iff_unannotated expectPlugin xsArgs).
  reflexivity.
Defined.

(** X8: the key transformers a compilation composes are those of the
    top-level fields that read as annotated, themselves or somewhere in
    their type, one each, in the order in which the fields are defined, and
    each of them is a function. *)
Theorem discovered_are_the_annotated_fields
    (this : InputTransformer) (argDefs : Rec ArgDef) :
  NoDup (Obj.keys argDefs) ->
  map fst (discovered this argDefs)
  = map fst (filter (fun kd => argDefAnnotated (extensionName this) (snd kd)) argDefs)
  /\ Forall (fun kt : KeyTransformer => exists f, snd kt = Some (TFun f))
            (discovered this argDefs).
Proof.
  intros Hnd. destruct (filter_keys_decides this argDefs) as [Hkeys Hfun].
  unfold discovered, Obj.entries.
  rewrite fromEntries_entries.
  - split; [exact Hkeys | exact Hfun].
  - unfold Obj.keys. rewrite Hkeys. now apply NoDup_filter_keys.
Qed.

Lemma discovered_are_the_annotated_fields_witness :
  NoDup (Obj.keys keepAndReplaceArgs)
  /\ map fst (discovered expectPlugin keepAndReplaceArgs)
     = map fst (filter (fun kd => argDefAnnotated (extensionName expectPlugin) (snd kd))
                       keepAndReplaceArgs)
  /\ Forall (fun kt : KeyTransformer => exists f, snd kt = Some (TFun f))
            (discovered expectPlugin keepAndReplaceArgs).
Proof.
  assert (Hnd : NoDup (Obj.keys keepAndReplaceArgs)).
  { repeat constructor; simpl; intuition discriminate. }
  split; [exact Hnd|].
  exact (@discovered_are_the_annotated_fields expectPlugin keepAndReplaceArgs Hnd).
Defined.

(** X9: the function compiled from a tree with an annotated position leaves
    alone every key of the bag that is not a top-level field reading as
    annotated: when it returns on a bag, it returns a bag holding under such
    a key what the input bag held, keys the tree does not mention
    included. *)
Theorem unannotated_keys_pass_through
    (this : InputTransformer) (argDefs : Rec ArgDef) (bag : Rec Value) (y : string) :
  treeAnnotated (extensionName this) argDefs = true ->
  (forall d, In (y, d) argDefs -> argDefAnnotated (extensionName this) d = false) ->
  exists f,
    buildResolverMiddleware this argDefs = Some (TFun f)
    /\ match f (VObj bag) with
       | Ok r => exists out, r = VObj out /\ Obj.get y out = Obj.get y bag
       | Throw _ => True
       end.
Proof.
  intros Hann Hy. destruct (compile_decides this argDefs) as [Hfun _].
  destruct (Hfun Hann) as [_ Hcompile].
  eexists. split; [exact Hcompile|].
  destruct (composeKeyTransformers (discovered this argDefs) (VObj bag)) as [r|e] eqn:Hrun;
    [|exact I].
  destruct (compose_bag _ _ Hrun) as (out & -> & Hsame & _).
  exists out. split; [reflexivity|].
  apply Hsame. intros Hin.
  apply in_map_iff in Hin. destruct Hin as (kt & <- & Hkt).
  destruct (discovered_entries this argDefs kt Hkt) as (d & Hd & Hdann).
  rewrite (Hy d Hd) in Hdann. discriminate.
Qed.

Lemma unannotated_keys_pass_through_witness :
  let bag := [("a", VStr "keep"); ("b", VStr "old"); ("c", VNum 3)] in
  treeAnnotated (extensionName expectPlugin) keepAndReplaceArgs = true
  /\ (forall d, In ("a", d) keepAndReplaceArgs ->
                argDefAnnotated (extensionName expectPlugin) d = false)
  /\ invoke (buildResolverMiddleware expectPlugin keepAndReplaceArgs) (VObj bag)
     = Some (Ok (VObj [("a", VStr "keep"); ("b", VStr "X"); ("c", VNum 3)]))
  /\ exists f,
      buildResolverMiddleware expectPlugin keepAndReplaceArgs = Some (TFun f)
      /\ match f (VObj bag) with
         | Ok r => exists out, r = VObj out /\ Obj.get "a" out = Obj.get "a" bag
         | Throw _ => True
         end.
Proof.
  intros bag.
  assert (Ha : forall d, In ("a", d) keepAndReplaceArgs ->
                         argDefAnnotated (extensionName expectPlugin) d = false).
  { intros d [Hd|[Hd|[]]]; [injection Hd as <- | discriminate Hd]. reflexivity. }
  split; [reflexivity|]. split; [exact Ha|]. split; [reflexivity|].
  exact (@unannotated_keys_pass_through expectPlugin keepAndReplaceArgs bag "a"
           eq_refl Ha).
Defined.

Section Composite.

Variable this : InputTransformer.
Local Abbreviation name := (extensionName this).

Lemma reduceFieldWith_decides (init : option TVal) (kf : string * InputField GType) :
  decides (fieldAnnotatedWith (typeAnnotated name) name kf)
          (snd (reduceFieldWith (visit this) (reduceOverTerminal (visit this)) init kf)).
Proof.
  unfold reduceFieldWith, fieldAnnotatedWith. simpl snd at 1.
  apply orElse_decides; [|apply reduceOverTerminal_decides].
  match goal with
  | |- decides _ (visit this (CVInitial ?v) ?node ?ctx) =>
      generalize (visit_initial_decides this v node ctx)
  end.
  now rewrite getExtensions_field.
Qed.

Lemma reduceOverTerminal_unwrap (T : Type) (reducer : Reducer T) (t : GType)
    (ctx : NodeCtx T) :
  reduceOverTerminal reducer t ctx
  = reduceOverTerminal reducer (fst (unwrapGraphQLDef t)) ctx.
Proof.
  induction t as [t IH|t IH|n e|n e fields]; simpl; auto;
    rewrite IH; destruct (unwrapGraphQLDef t); reflexivity.
Qed.

(** A type position whose terminal type is an input object type that carries
    no annotation itself and has an annotated field. *)
Lemma reduceOverArgType_composite (t : GType) (n : string) (e : option Extensions)
    (fields : Rec (InputField GType)) (ctx : NodeCtx TVal) :
  fst (unwrapGraphQLDef t) = GInputObject n e fields ->
  annotatedAt name e = false ->
  existsb (fieldAnnotatedWith (typeAnnotated name) name) fields = true ->
  fieldTransformers this (initialNodeValue ctx) fields <> []
  /\ reduceOverArgType (visit this) (ATType t) ctx
     = Some (TFun (composeKeyTransformers
                     (fieldTransformers this (initialNodeValue ctx) fields))).
Proof.
  intros Hterm He Hfields.
  assert (Hchildren : filter (@isDefinedEntry TVal)
                        (map (reduceFieldWith (visit this) (reduceOverTerminal (visit this))
                                (initialNodeValue ctx)) fields) <> []).
  { generalize (@children_decide _ (fieldAnnotatedWith (typeAnnotated name) name)
                  (reduceFieldWith (visit this) (reduceOverTerminal (visit this))
                     (initialNodeValue ctx)) fields).
    rewrite Hfields. intros H. apply H. apply Forall_forall. intros kf _.
    apply reduceFieldWith_decides. }
  assert (Hne : fieldTransformers this (initialNodeValue ctx) fields <> []).
  { unfold fieldTransformers, Obj.entries. intros Hnil.
    apply -> fromEntries_nil_iff in Hnil. contradiction. }
  split; [exact Hne|].
  rewrite reduceOverArgType_type.
  assert (Hhere : visit this (CVInitial (initialNodeValue ctx)) (NArgType (ATType t))
                    (withWrapping ctx (snd (unwrapType (ATType t)))) = None).
  { rewrite visit_initial, getExtensions_type.
    destruct t as [t'|t'|n' e'|n' e' fields']; simpl in *; try reflexivity.
    - discriminate.
    - injection Hterm as _ -> _. unfold annotatedAt in He. now rewrite He. }
  rewrite Hhere. simpl.
  rewrite reduceOverTerminal_unwrap, Hterm. simpl.
  rewrite visit_initial, getExtensions_type. simpl.
  unfold annotatedAt in He. rewrite He. simpl.
  now apply visit_children.
Qed.

End Composite.

(** X10: wrappers around an input object type do not change what is compiled
    for it.  When the terminal type of a position is an input object type
    that carries no annotation itself and has an annotated field, the
    position compiles to the composition of its fields' key transformers,
    whether or not a list wrapper surrounds it: the composed function is not
    mapped over the elements of a list. *)
Theorem wrappers_around_composite_are_ignored
    (this : InputTransformer) (t : GType) (n : string) (e : option Extensions)
    (fields : Rec (InputField GType)) (ctx : NodeCtx TVal) :
  fst (unwrapGraphQLDef t) = GInputObject n e fields ->
  annotatedAt (extensionName this) e = false ->
  existsb (fieldAnnotatedWith (typeAnnotated (extensionName this)) (extensionName this))
          fields = true ->
  reduceOverArgType (visit this) (ATType t) ctx
  = reduceOverArgType (visit this) (ATType (GInputObject n e fields)) ctx
  /\ reduceOverArgType (visit this) (ATType t) ctx
     = Some (TFun (composeKeyTransformers
                     (fieldTransformers this (initialNodeValue ctx) fields))).
Proof.
  intros Hterm He Hfields.
  destruct (reduceOverArgType_composite this t ctx Hterm He Hfields) as [_ Ht].
  destruct (reduceOverArgType_composite this (GInputObject n e fields) ctx
              eq_refl He Hfields) as [_ Hobj].
  split; [now rewrite Ht, Hobj | exact Ht].
Qed.

Lemma wrappers_around_composite_are_ignored_witness :
  let ctx := {| key := Some "items"; wrapping := []; initialNodeValue := Some TNull |} in
  let fields := [("id", mkInputField GraphQLString (expect (VStr "ID")));
                 ("note", mkInputField GraphQLString None)] in
  fst (unwrapGraphQLDef (GList Item)) = GInputObject "Item" None fields
  /\ annotatedAt (extensionName expectPlugin) None = false
  /\ existsb (fieldAnnotatedWith (typeAnnotated (extensionName expectPlugin))
                (extensionName expectPlugin)) fields = true
  /\ reduceOverArgType (visit expectPlugin) (ATType (GList Item)) ctx
     = reduceOverArgType (visit expectPlugin) (ATType (GInputObject "Item" None fields)) ctx
  /\ reduceOverArgType (visit expectPlugin) (ATType (GList Item)) ctx
     = Some (TFun (composeKeyTransformers
                     (fieldTransformers expectPlugin (initialNodeValue ctx) fields))).
Proof.
  intros ctx fields.
  split; [reflexivity|]. split; [reflexivity|]. split; [reflexivity|].
  apply (@wrappers_around_composite_are_ignored expectPlugin (GList Item) "Item" None
           fields ctx); reflexivity.
Defined.

(** On a list of items the composed function treats the list as a bag: the
    elements are kept under their indices, untransformed, and the annotated
    key is added to the list's own properties. *)
Example list_of_composites_is_not_mapped :
  invoke (buildResolverMiddleware expectPlugin itemsArgs)
         (VObj [("items", VArr [VObj [("id", VStr "a")]])])
  = Some (Ok (VObj [("items", VObj [("0", VObj [("id", VStr "a")]); ("id", VStr "ID")])])).
Proof. reflexivity. Qed.

Section Positions.

Variable this : InputTransformer.
Local Abbreviation name := (extensionName this).

(** A top-level field whose definition reads as annotated itself. *)
Lemma reduceOverArgDef_annotated (d : ArgDef) (ctx : NodeCtx TVal) :
  wrapping ctx = [] ->
  definitionAnnotatedAt name (argExtensions d) = true ->
  reduceOverArgDef (visit this) d ctx
  = Some (TFun (makeTransform this
                  (AValue (definitionAnnotation name (argExtensions d))))).
Proof.
  intros Hw Hann. apply reduceOverArgDef_halts.
  rewrite visit_initial, getExtensions_argDef. simpl truthyAny.
  unfold definitionAnnotatedAt in Hann. rewrite Hann, Hw. reflexivity.
Qed.

(** One field of the tree resolves to [r], the others to [undefined]. *)
Lemma compile_one_child (pre post : Rec ArgDef) (x : string) (d : ArgDef) (r : TVal) :
  Forall (fun kd => argDefAnnotated name (snd kd) = false) (pre ++ post) ->
  reduceOverArgDef (visit this) d
    {| key := Some x; wrapping := []; initialNodeValue := Some TNull |} = Some r ->
  buildResolverMiddleware this (pre ++ (x, d) :: post)
  = Some (TFun (composeKeyTransformers [(x, Some r)])).
Proof.
  intros Hall Hd.
  unfold buildResolverMiddleware, reduceOverArgDefs, Obj.entries.
  rewrite (children_single _ (fun kd => argDefAnnotated name (snd kd))).
  - simpl. now rewrite Hd.
  - intros kd Hkd. simpl.
    generalize (reduceOverArgDef_decides this (snd kd)
                  {| key := Some (fst kd); wrapping := []; initialNodeValue := Some TNull |}).
    now rewrite Hkd.
  - exact Hall.
  - unfold isDefinedEntry. simpl. now rewrite Hd.
Qed.

(** The fields of an input object type of which one, a field that is not
    list-wrapped, carries the configuration itself. *)
Lemma fieldTransformers_one (init : option TVal) (fpre fpost : Rec (InputField GType))
    (target : string) (f : InputField GType) :
  Forall (fun kf => fieldAnnotatedWith (typeAnnotated name) name kf = false)
         (fpre ++ fpost) ->
  annotatedAt name (fieldExtensions f) = true ->
  includes WList (snd (unwrapGraphQLDef (fieldType f))) = false ->
  fieldTransformers this init (fpre ++ (target, f) :: fpost)
  = [(target,
      Some (TFun (makeTransform this (AValue (annotation name (fieldExtensions f))))))].
Proof.
  intros Hall Hann Hlist.
  assert (Hf : reduceFieldWith (visit this) (reduceOverTerminal (visit this)) init (target, f)
               = (target,
                  Some (TFun (makeTransform this
                                (AValue (annotation name (fieldExtensions f))))))).
  { unfold reduceFieldWith. simpl fst. simpl snd. f_equal.
    rewrite visit_initial, getExtensions_field. simpl truthyAny.
    unfold annotatedAt in Hann. rewrite Hann.
    rewrite unwrapType_field, unwrapType_type. simpl. rewrite Hlist. reflexivity. }
  unfold fieldTransformers, Obj.entries.
  rewrite (children_single _ (fieldAnnotatedWith (typeAnnotated name) name)).
  - now rewrite Hf.
  - intros kf Hkf. generalize (reduceFieldWith_decides this init kf). now rewrite Hkf.
  - exact Hall.
  - rewrite Hf. reflexivity.
Qed.

End Positions.

(** X11: a top-level argument definition that reads as annotated itself
    compiles to the plain transform whatever the argument's type is, a list
    type included: the fold visits the definition before it unwraps the
    type, so no wrapper kind is known yet.  On invocation the transform is
    handed, whole, what the bag reads under the key. *)
Theorem argument_annotation_is_not_list_wrapped
    (this : InputTransformer) (pre post : Rec ArgDef) (x : string) (d : ArgDef)
    (bag : Rec Value) :
  Forall (fun kd => argDefAnnotated (extensionName this) (snd kd) = false) (pre ++ post) ->
  definitionAnnotatedAt (extensionName this) (argExtensions d) = true ->
  exists f,
    buildResolverMiddleware this (pre ++ (x, d) :: post) = Some (TFun f)
    /\ f (VObj bag)
       = match transform this (readPlain x bag)
                 (AValue (definitionAnnotation (extensionName this) (argExtensions d))) with
         | Ok v' => Ok (VObj (Obj.set x v' bag))
         | Throw e => Throw e
         end.
Proof.
  intros Hall Hann. eexists. split.
  - apply compile_one_child; [exact Hall|].
    now apply reduceOverArgDef_annotated.
  - rewrite compose_single. reflexivity.
Qed.

Lemma argument_annotation_is_not_list_wrapped_witness :
  let d := mkArgDef (GList GraphQLInt) (Some [("double", VObj [])]) in
  let bag := [("xs", VArr [VNum 1; VNum 2; VNum 3])] in
  Forall (fun kd => argDefAnnotated (extensionName doubling) (snd kd) = false)
         (@nil (string * ArgDef) ++ [])
  /\ definitionAnnotatedAt (extensionName doubling) (argExtensions d) = true
  /\ transform doubling (readPlain "xs" bag)
       (AValue (definitionAnnotation (extensionName doubling) (argExtensions d)))
     = Throw (Thrown (VStr "not a number"))
  /\ exists f,
      buildResolverMiddleware doubling ([] ++ ("xs", d) :: []) = Some (TFun f)
      /\ f (VObj bag)
         = match transform doubling (readPlain "xs" bag)
                   (AValue (definitionAnnotation (extensionName doubling)
                              (argExtensions d))) with
           | Ok v' => Ok (VObj (Obj.set "xs" v' bag))
           | Throw e => Throw e
           end.
Proof.
  intros d bag. split; [constructor|]. split; [reflexivity|]. split; [reflexivity|].
  apply (@argument_annotation_is_not_list_wrapped doubling [] [] "xs" d bag);
    [constructor | reflexivity].
Defined.

(** With the annotation on the argument definition, the doubling transform
    is handed the whole list and rejects it. *)
Example annotated_list_argument_is_not_mapped :
  invoke (buildResolverMiddleware doubling xsAnnotatedArgs)
         (VObj [("xs", VArr [VNum 1; VNum 2; VNum 3])])
  = Some (Throw (Thrown (VStr "not a number"))).
Proof. reflexivity. Qed.

(** X12: a top-level argument whose terminal type is an input object type
    with one annotated field [target] (not list-wrapped; nothing else in the
    tree reads as annotated, the argument's own definition included)
    compiles to a function that, on a bag holding an object under the
    argument's key, transforms [target] inside that object and leaves the
    object's other fields and the bag's other keys as they were. *)
Theorem nested_composite_position
    (this : InputTransformer) (pre post : Rec ArgDef) (box : string) (d : ArgDef)
    (n : string) (e : option Extensions) (fpre fpost : Rec (InputField GType))
    (target : string) (f : InputField GType)
    (bag inner : Rec Value) (v v' : Value) :
  Forall (fun kd => argDefAnnotated (extensionName this) (snd kd) = false) (pre ++ post) ->
  definitionAnnotatedAt (extensionName this) (argExtensions d) = false ->
  fst (unwrapGraphQLDef (argType d)) = GInputObject n e (fpre ++ (target, f) :: fpost) ->
  annotatedAt (extensionName this) e = false ->
  Forall (fun kf => fieldAnnotatedWith (typeAnnotated (extensionName this))
                      (extensionName this) kf = false) (fpre ++ fpost) ->
  annotatedAt (extensionName this) (fieldExtensions f) = true ->
  includes WList (snd (unwrapGraphQLDef (fieldType f))) = false ->
  Obj.get box bag = Some (VObj inner) ->
  Obj.get target inner = Some v ->
  transform this v (AValue (annotation (extensionName this) (fieldExtensions f))) = Ok v' ->
  exists g,
    buildResolverMiddleware this (pre ++ (box, d) :: post) = Some (TFun g)
    /\ g (VObj bag) = Ok (VObj (Obj.set box (VObj (Obj.set target v' inner)) bag)).
Proof.
  intros Hall Hd Hterm He Hfields Hf Hlist Hbox Htarget Hv.
  assert (Hexists : existsb (fieldAnnotatedWith (typeAnnotated (extensionName this))
                               (extensionName this))
                            (fpre ++ (target, f) :: fpost) = true).
  { rewrite existsb_app. simpl. unfold fieldAnnotatedWith at 2. simpl.
    rewrite Hf. simpl. apply orb_true_r. }
  destruct (reduceOverArgType_composite this (argType d)
              {| key := Some box; wrapping := []; initialNodeValue := Some TNull |}
              Hterm He Hexists) as [_ Htype].
  simpl initialNodeValue in Htype.
  rewrite (@fieldTransformers_one this (Some TNull) fpre fpost target f Hfields Hf Hlist)
    in Htype.
  eexists. split.
  - apply compile_one_child; [exact Hall|].
    rewrite reduceOverArgDef_descends; [exact Htype|].
    rewrite visit_initial, getExtensions_argDef. simpl truthyAny.
    unfold definitionAnnotatedAt in Hd. now rewrite Hd.
  - rewrite compose_single, (@readPlain_own box (VObj inner) bag Hbox).
    rewrite compose_single, (@readPlain_own target v inner Htarget).
    unfold makeTransform. rewrite Hv. reflexivity.
Qed.

Lemma nested_composite_position_witness :
  let d := mkArgDef (GNonNull Item) None in
  let bag := [("keep", VStr "k"); ("box", VObj [("id", VStr "v"); ("note", VStr "n")])] in
  Forall (fun kd => argDefAnnotated (extensionName expectPlugin) (snd kd) = false)
         ([("keep", mkArgDef GraphQLString None)] ++ [])
  /\ definitionAnnotatedAt (extensionName expectPlugin) (argExtensions d) = false
  /\ fst (unwrapGraphQLDef (argType d))
     = GInputObject "Item" None
         ([] ++ ("id", mkInputField GraphQLString (expect (VStr "ID")))
             :: [("note", mkInputField GraphQLString None)])
  /\ exists g,
      buildResolverMiddleware expectPlugin boxArgs = Some (TFun g)
      /\ g (VObj bag)
         = Ok (VObj [("keep", VStr "k");
                     ("box", VObj [("id", VStr "ID"); ("note", VStr "n")])]).
Proof.
  intros d bag.
  split; [repeat constructor|]. split; [reflexivity|]. split; [reflexivity|].
  apply (@nested_composite_position expectPlugin
           [("keep", mkArgDef GraphQLString None)] [] "box" d "Item" None
           [] [("note", mkInputField GraphQLString None)]
           "id" (mkInputField GraphQLString (expect (VStr "ID")))
           bag [("id", VStr "v"); ("note", VStr "n")] (VStr "v") (VStr "ID"));
    try reflexivity; repeat constructor.
Defined.

(** X13: provided no top-level field is named [extensions], what is stored
    under other keys does not reach a transformer: two trees with the same
    keys and the same shape of types that read alike under the
    transformer's own key, position by position, compile to the same
    result, and are annotated or not alike. *)
Theorem annotations_under_other_keys_are_ignored
    (this : InputTransformer) (argDefs argDefs' : Rec ArgDef) :
  Obj.get "extensions" argDefs = None ->
  sameTree (extensionName this) argDefs argDefs' ->
  buildResolverMiddleware this argDefs = buildResolverMiddleware this argDefs'
  /\ treeAnnotated (extensionName this) argDefs
     = treeAnnotated (extensionName this) argDefs'.
Proof.
  intros Hno Hsame.
  assert (Heq : buildResolverMiddleware this argDefs = buildResolverMiddleware this argDefs')
    by now apply compile_ignores_other_keys.
  split; [exact Heq|].
  pose proof (sameTree_keys this _ Hsame Hno) as Hno'.
  destruct (compile_decides this argDefs) as [Hfun Hnone].
  destruct (compile_decides this argDefs') as [Hfun' Hnone'].
  destruct (treeAnnotated (extensionName this) argDefs) eqn:Ha,
           (treeAnnotated (extensionName this) argDefs') eqn:Ha'; auto.
  - destruct (Hfun eq_refl) as [_ Hc]. rewrite (Hnone' eq_refl Hno') in Heq. congruence.
  - destruct (Hfun' eq_refl) as [_ Hc]. rewrite (Hnone eq_refl Hno) in Heq. congruence.
Qed.

Lemma annotations_under_other_keys_are_ignored_witness :
  let plain := [("b", mkArgDef GraphQLString (expect (VStr "X")))] in
  let other := [("b", mkArgDef GraphQLString
                        (Some [("other", VNum 1);
                               ("expectPlugin", VObj [("to", VStr "X")])]))] in
  Obj.get "extensions" plain = None
  /\ sameTree (extensionName expectPlugin) plain other
  /\ buildResolverMiddleware expectPlugin plain = buildResolverMiddleware expectPlugin other
  /\ treeAnnotated (extensionName expectPlugin) plain
     = treeAnnotated (extensionName expectPlugin) other.
Proof.
  intros plain other.
  assert (Hsame : sameTree (extensionName expectPlugin) plain other)
    by (repeat constructor).
  split; [reflexivity|]. split; [exact Hsame|].
  exact (@annotations_under_other_keys_are_ignored expectPlugin plain other eq_refl Hsame).
Defined.

(** * Further properties of the element-mapping transform *)

Lemma mapM_returns (A B : Type) (f : A -> Result B) (xs : list A) :
  Forall (fun x => exists y, f x = Ok y) xs -> exists ys, mapM f xs = Ok ys.
Proof.
  induction 1 as [|x rest [y Hy] _ [ys Hys]]; simpl.
  - now exists [].
  - rewrite Hy. simpl. rewrite Hys. simpl. now exists (y :: ys).
Qed.

Lemma mapM_throw_iff (A B : Type) (f : A -> Result B) (xs : list A) (e : Exn) :
  mapM f xs = Throw e
  <-> exists pre x post,
      xs = pre ++ x :: post
      /\ Forall (fun y => exists r, f y = Ok r) pre
      /\ f x = Throw e.
Proof.
  split.
  - induction xs as [|x rest IH]; simpl; [discriminate|].
    destruct (f x) as [y|e'] eqn:Hx; simpl.
    + destruct (mapM f rest) as [ys|e'] eqn:Hrest; simpl; [discriminate|].
      intros H. injection H as ->.
      destruct (IH eq_refl) as (pre & x' & post & -> & Hpre & Hx').
      exists (x :: pre), x', post. repeat split; auto.
      constructor; auto. now exists y.
    + intros H. injection H as ->. exists [], x, rest. repeat split; auto.
  - intros (pre & x & post & -> & Hpre & Hx).
    destruct (@mapM_returns _ _ f pre Hpre) as [ys Hys].
    exact (@mapM_throw _ _ f pre x post ys e Hys Hx).
Qed.

(** X14: a list-wrapped transform throws exactly when the element transform
    throws on some element after returning on every element before it, and
    it throws that element's exception: the elements after the first
    rejected one play no part. *)
Theorem list_transform_throws_first_failure
    (this : InputTransformer) (config : Any) (items : list Value) (e : Exn) :
  makeListTransform this config (VArr items) = Throw e
  <-> exists pre x post,
      items = pre ++ x :: post
      /\ Forall (fun y => exists r, transform this y config = Ok r) pre
      /\ transform this x config = Throw e.
Proof.
  rewrite <- (mapM_throw_iff (fun input => transform this input config)).
  unfold makeListTransform, makeTransform.
  destruct (mapM (fun input => transform this input config) items) as [ys|e'];
    simpl; split; intros H; try discriminate; injection H as ->; reflexivity.
Qed.

(** * The opaque-ID extractor and the resolver middleware *)

(** X16: the extractor of the opaque-ID example is idempotent, and its result
    always has the two properties [prefix] and [cleanPrefix], neither of
    them [undefined]; every other option is dropped.  A default replaces an
    absent or [undefined] option only: a [null] prefix stays [null]. *)
Theorem extractConfig_idempotent (config : Rec Value) :
  OpaqueID.extractConfig (OpaqueID.extractConfig config) = OpaqueID.extractConfig config
  /\ Obj.keys (OpaqueID.extractConfig config) = ["prefix"; "cleanPrefix"]
  /\ Forall (fun kv => snd kv <> VUndefined) (OpaqueID.extractConfig config)
  /\ (Obj.get "prefix" config = Some VNull ->
      Obj.get "prefix" (OpaqueID.extractConfig config) = Some VNull).
Proof.
  assert (Hdef : forall v d, d <> VUndefined -> OpaqueID.orDefault v d <> VUndefined).
  { intros [[]|] d Hd; simpl; auto; discriminate. }
  assert (Hidem : forall v d, d <> VUndefined ->
                              OpaqueID.orDefault (Some (OpaqueID.orDefault v d)) d
                              = OpaqueID.orDefault v d).
  { intros v d Hd. pose proof (Hdef v d Hd) as Hne.
    destruct (OpaqueID.orDefault v d); simpl; congruence. }
  split; [|split; [reflexivity|split]].
  - unfold OpaqueID.extractConfig at 1.
    change (Obj.get "prefix" (OpaqueID.extractConfig config))
      with (Some (OpaqueID.orDefault (Obj.get "prefix" config) (VStr ""))).
    change (Obj.get "cleanPrefix" (OpaqueID.extractConfig config))
      with (Some (OpaqueID.orDefault (Obj.get "cleanPrefix" config) (VBool false))).
    rewrite !Hidem by discriminate. reflexivity.
  - unfold OpaqueID.extractConfig. repeat constructor; simpl; apply Hdef; discriminate.
  - intros H. unfold OpaqueID.extractConfig. simpl. now rewrite H.
Qed.

(** X17: provided no top-level argument is named [extensions], the
    middleware is installed exactly for the fields whose arguments read as
    annotated somewhere.  Where it is installed, the resolver is called with
    the arguments the compiled function returns, and it is not called at
    all when the compiled function throws. *)
Theorem middleware_guards_the_resolver
    (this : InputTransformer) (argDefs : Rec ArgDef) (args : Value) (next : Next) :
  Obj.get "extensions" argDefs = None ->
  if treeAnnotated (extensionName this) argDefs
  then exists m,
      onCreateFieldResolver this (Some argDefs) = Some m
      /\ m args next
         = match composeKeyTransformers (discovered this argDefs) args with
           | Ok args' => next args'
           | Throw e => Throw e
           end
  else onCreateFieldResolver this (Some argDefs) = None.
Proof.
  intros Hno. destruct (compile_decides this argDefs) as [Hfun Hnone].
  unfold onCreateFieldResolver.
  destruct (treeAnnotated (extensionName this) argDefs).
  - destruct (Hfun eq_refl) as [_ Hcompile]. rewrite Hcompile.
    eexists. split; reflexivity.
  - now rewrite (Hnone eq_refl Hno).
Qed.

Lemma middleware_guards_the_resolver_witness :
  let args := VObj [("a", VStr "keep"); ("b", VStr "old")] in
  let next : Next := fun a => Ok (VArr [VStr "resolved with"; a]) in
  Obj.get "extensions" keepAndReplaceArgs = None
  /\ treeAnnotated (extensionName expectPlugin) keepAndReplaceArgs = true
  /\ composeKeyTransformers (discovered expectPlugin keepAndReplaceArgs) args
     = Ok (VObj [("a", VStr "keep"); ("b", VStr "X")])
  /\ if treeAnnotated (extensionName expectPlugin) keepAndReplaceArgs
     then exists m,
         onCreateFieldResolver expectPlugin (Some keepAndReplaceArgs) = Some m
         /\ m args next
            = match composeKeyTransformers (discovered expectPlugin keepAndReplaceArgs)
                      args with
              | Ok args' => next args'
              | Throw e => Throw e
              end
     else onCreateFieldResolver expectPlugin (Some keepAndReplaceArgs) = None.
Proof.
  intros args next.
  split; [reflexivity|]. split; [reflexivity|]. split; [reflexivity|].
  exact (@middleware_guards_the_resolver expectPlugin keepAndReplaceArgs args next eq_refl).
Defined.
